(** * walk.TableView: column index mapping, selection state and layout
      persistence

    A shallow embedding of [tableview.go] (package [walk]).  The widget is a
    pair of native list views (a frozen pane and a normal pane) driven by one
    [TableView] struct.  The struct is a record, Go's fixed-width integers
    are [Z] with their wrap-around written out, and everything the widget
    asks of the outside (the two list views, timers, the table model, the
    event publishers) goes through an environment of oracles indexed by the
    history of calls made so far. *)

From Stdlib Require Import ZArith Lia Bool.
From stdpp Require Import gmap strings list.

#[local] Set Warnings "-clear-no-such-hyp".

Open Scope Z_scope.

(** ** Go's integer types *)

Module GoInt.

(** Two's-complement reduction of [z] to a signed [w]-bit integer. *)
Definition wrap (w z : Z) : Z := (z + 2 ^ (w - 1)) mod 2 ^ w - 2 ^ (w - 1).

(** [int] is 64 bits wide on windows/amd64, [int32] is 32 bits. *)
Definition int (z : Z) : Z := wrap 64 z.
Definition int32 (z : Z) : Z := wrap 32 z.

(** The unsigned conversions [uintptr(x)] and [uint32(x)]. *)
Definition uintptr (z : Z) : Z := z mod 2 ^ 64.
Definition uint32 (z : Z) : Z := z mod 2 ^ 32.

Definition min_int : Z := - 2 ^ 63.
Definition max_int : Z := 2 ^ 63 - 1.
Definition max_int32 : Z := 2 ^ 31 - 1.

Definition is_int (z : Z) : Prop := min_int <= z <= max_int.
Definition is_int32 (z : Z) : Prop := - 2 ^ 31 <= z <= max_int32.

(** [a + b], [a - b] on [int]; [idx++] on [int32]. *)
Definition add (a b : Z) : Z := int (a + b).
Definition sub (a b : Z) : Z := int (a - b).
Definition incr32 (a : Z) : Z := int32 (a + 1).

End GoInt.

(** ** Columns *)

(** The fields of [TableViewColumn] that [tableview.go] reads or writes. *)
Record TableViewColumn := mkColumn {
  name : string;
  titleOverride : string;
  width : Z;
  frozen : bool;
  visible : bool;
  precision : Z;
  format : string
}.

(** [tv.columns.items], in logical order.  A [*TableViewColumn] is its
    position in this list. *)
Abbreviation TableViewColumnList := (list TableViewColumn).

Module ColumnIndex.

(** The [for i, tvc := range tv.columns.items] loop of [fromLVColIdx], from
    position [i] on with the [int32] counter at [idx].  ([i] stays below
    the length of the slice and needs no reduction.) *)
Fixpoint fromLVColIdx_loop (frozen' : bool) (index : Z)
         (items : TableViewColumnList) (i idx : Z) : Z :=
  match items with
  | [] => -1
  | tvc :: rest =>
      if eqb frozen' tvc.(frozen) && tvc.(visible) then
        if idx =? index then i
        else fromLVColIdx_loop frozen' index rest (i + 1) (GoInt.incr32 idx)
      else fromLVColIdx_loop frozen' index rest (i + 1) idx
  end.

Definition fromLVColIdx (items : TableViewColumnList) (frozen' : bool)
           (index : Z) : Z :=
  fromLVColIdx_loop frozen' index items 0 0.

(** The loop of [toLVColIdx]: the counter advances at every visible
    column, whatever its pane. *)
Fixpoint toLVColIdx_loop (index : Z) (items : TableViewColumnList)
         (i idx : Z) : Z :=
  match items with
  | [] => -1
  | tvc :: rest =>
      if tvc.(visible) then
        if i =? index then idx
        else toLVColIdx_loop index rest (i + 1) (GoInt.incr32 idx)
      else toLVColIdx_loop index rest (i + 1) idx
  end.

Definition toLVColIdx (items : TableViewColumnList) (index : Z) : Z :=
  toLVColIdx_loop index items 0 0.

Fixpoint visibleFrozenColumnCount (items : TableViewColumnList) : Z :=
  match items with
  | [] => 0
  | tvc :: rest =>
      (if tvc.(frozen) && tvc.(visible) then 1 else 0)
      + visibleFrozenColumnCount rest
  end.

Fixpoint visibleColumnCount (items : TableViewColumnList) : Z :=
  match items with
  | [] => 0
  | tvc :: rest =>
      (if tvc.(visible) then 1 else 0) + visibleColumnCount rest
  end.

Definition visibleColumns (items : TableViewColumnList) : TableViewColumnList :=
  filter (fun tvc => tvc.(visible) = true) items.

(** Number of visible columns of pane [f] in a prefix. *)
Definition paneRank (f : bool) (cols : TableViewColumnList) : Z :=
  Z.of_nat (length (filter (fun tvc => tvc.(visible) = true /\
                                      tvc.(frozen) = f) cols)).

(** Number of visible columns in a prefix, both panes together. *)
Definition visibleRank (cols : TableViewColumnList) : Z :=
  Z.of_nat (length (visibleColumns cols)).

End ColumnIndex.

(** ** The outside world *)

(** Window handles of the widget: the two list views and the parent. *)
Inductive HWND := hwndFrozen | hwndNormal | hWnd.

Inductive SortOrder := SortAscending | SortDescending.

(** A Go [error] value: one made by walk's [newError], one handed back by
    the table model, or one of [encoding/json]. *)
Inductive error :=
| newError (msg : string)
| modelError (code : Z)
| jsonError (msg : string).

(** The list-view messages that the modelled functions send, with the
    [wParam] and what [lParam] carries or points to. *)
Inductive Msg :=
| LVM_SETITEMSTATE (wp : Z) (state stateMask : Z)
| LVM_ENSUREVISIBLE (wp lp : Z)
| LVM_GETSELECTEDCOUNT
| LVM_GETNEXTITEM (wp lp : Z)
| LVM_UPDATE (wp : Z)
| LVM_SETITEMCOUNT (wp lp : Z)
| LVM_SETCOLUMNORDERARRAY (wp : Z) (order : list Z).

Inductive EventKind := CurrentIndexChanged | SelectedIndexesChanged.

(** Setters of [TableViewColumn] used by [RestoreState]. *)
Inductive ColumnSetter :=
| SetTitleOverride (title : string)
| SetWidth (w : Z)
| SetVisible (v : bool)
| SetFrozen (f : bool).

(** One interaction with the outside. *)
Inductive Call :=
| cSendMessage (hwnd : HWND) (m : Msg)
| cGetWindowLong (hwnd : HWND) (index : Z)
| cSetTimer (hwnd : HWND) (id elapse : Z)
| cInvalidateRect (hwnd : HWND)
| cBaseInvalidate
| cSetSuspended (b : bool)
| cReadState
| cPublish (e : EventKind)
| cRowCount
| cSort (col : Z) (order : SortOrder)
| cSortedColumn
| cSortOrder
| cColumnSortable (col : Z)
| cColumnSet (p : nat) (op : ColumnSetter).

(** The calls made so far, most recent first. *)
Abbreviation History := (list Call).

(** Constants of the Windows headers. *)
Definition FALSE : Z := 0.
Definition LVIS_FOCUSED : Z := 1.
Definition LVIS_SELECTED : Z := 2.
Definition LVNI_SELECTED : Z := 2.
Definition LVS_SINGLESEL : Z := 4.
Definition LVSICF_NOSCROLL : Z := 1.
Definition GWL_STYLE : Z := -16.

(** [^uintptr(0)]: as item index of [LVM_SETITEMSTATE], every item. *)
Definition allItems : Z := 2 ^ 64 - 1.

Definition tableViewSelectedIndexesChangedTimerId : Z := 2.

(** The optional [Sorter] capability of a model.  Each method answers from
    the history of calls, so a model may change its mind after a [Sort]. *)
Record Sorter := mkSorter {
  Sort : History -> Z -> SortOrder -> option Z;
  SortedColumn : History -> Z;
  sorter_SortOrder : History -> SortOrder;
  ColumnSortable : History -> Z -> bool
}.

Record TableModel := mkModel {
  RowCount : History -> Z;
  asSorter : option Sorter
}.

Record tableViewColumnState := mkColumnState {
  Name : string;
  Title : string;
  Width : Z;
  Frozen : bool
}.

Record tableViewState := mkState {
  SortColumnName : string;
  tvs_SortOrder : SortOrder;
  ColumnDisplayOrder : list string;
  tvs_Columns : list tableViewColumnState
}.

(** What the outside answers.  [win_*] are the Windows calls (results as
    the integers Go receives), [base_*] the [WidgetBase] methods,
    [json_Unmarshal] the decoder of the persisted state and [col_set] the
    [TableViewColumn] setters, which hand back the column as they left it
    and their error. *)
Record Env := mkEnv {
  win_SendMessage : History -> HWND -> Msg -> Z;
  win_GetWindowLong : History -> HWND -> Z -> Z;
  win_SetTimer : History -> HWND -> Z -> Z -> Z;
  base_Invalidate : History -> option string;
  base_ReadState : History -> string + string;
  json_Unmarshal : string -> tableViewState + string;
  col_set : History -> TableViewColumn -> ColumnSetter ->
            TableViewColumn * option string
}.

(** ** The widget *)

(** The fields of [TableView] that the modelled functions touch. *)
Record TableView := mkTableView {
  columns : TableViewColumnList;
  model : option TableModel;
  selectedIndexes : list Z;
  prevIndex : Z;
  currentIndex : Z;
  publishNextSelClear : bool;
  inSetSelectedIndexes : bool;
  itemStateChangedEventDelay : Z;
  delayedCurrentIndexChangedCanceled : bool;
  sortedColumnIndex : Z;
  sortOrder : SortOrder;
  inSetCurrentIndex : bool
}.

Definition set_columns (v : TableViewColumnList) (t : TableView) : TableView :=
  mkTableView v t.(model) t.(selectedIndexes) t.(prevIndex) t.(currentIndex)
    t.(publishNextSelClear) t.(inSetSelectedIndexes)
    t.(itemStateChangedEventDelay) t.(delayedCurrentIndexChangedCanceled)
    t.(sortedColumnIndex) t.(sortOrder) t.(inSetCurrentIndex).

Definition set_selectedIndexes (v : list Z) (t : TableView) : TableView :=
  mkTableView t.(columns) t.(model) v t.(prevIndex) t.(currentIndex)
    t.(publishNextSelClear) t.(inSetSelectedIndexes)
    t.(itemStateChangedEventDelay) t.(delayedCurrentIndexChangedCanceled)
    t.(sortedColumnIndex) t.(sortOrder) t.(inSetCurrentIndex).

Definition set_currentIndex (v : Z) (t : TableView) : TableView :=
  mkTableView t.(columns) t.(model) t.(selectedIndexes) t.(prevIndex) v
    t.(publishNextSelClear) t.(inSetSelectedIndexes)
    t.(itemStateChangedEventDelay) t.(delayedCurrentIndexChangedCanceled)
    t.(sortedColumnIndex) t.(sortOrder) t.(inSetCurrentIndex).


Definition set_sortedColumnIndex (v : Z) (t : TableView) : TableView :=
  mkTableView t.(columns) t.(model) t.(selectedIndexes) t.(prevIndex)
    t.(currentIndex) t.(publishNextSelClear) t.(inSetSelectedIndexes)
    t.(itemStateChangedEventDelay) t.(delayedCurrentIndexChangedCanceled)
    v t.(sortOrder) t.(inSetCurrentIndex).

Definition set_sortOrder (v : SortOrder) (t : TableView) : TableView :=
  mkTableView t.(columns) t.(model) t.(selectedIndexes) t.(prevIndex)
    t.(currentIndex) t.(publishNextSelClear) t.(inSetSelectedIndexes)
    t.(itemStateChangedEventDelay) t.(delayedCurrentIndexChangedCanceled)
    t.(sortedColumnIndex) v t.(inSetCurrentIndex).

Definition set_inSetCurrentIndex (v : bool) (t : TableView) : TableView :=
  mkTableView t.(columns) t.(model) t.(selectedIndexes) t.(prevIndex)
    t.(currentIndex) t.(publishNextSelClear) t.(inSetSelectedIndexes)
    t.(itemStateChangedEventDelay) t.(delayedCurrentIndexChangedCanceled)
    t.(sortedColumnIndex) t.(sortOrder) v.

(** ** Running the widget against the outside *)

(** The widget together with the history of its calls.  A call appends
    itself to the history and reads its answer off the environment; the
    window procedure is not re-entered while a call is under way, and
    neither the events the widget publishes nor those of the model run a
    handler that calls back into the widget. *)
Record State := mkSt { tv : TableView; hist : History }.

Definition M (A : Type) : Type := State -> A * State.

Definition ret {A} (a : A) : M A := fun s => (a, s).

Definition bind {A B} (c : M A) (k : A -> M B) : M B :=
  fun s => let (a, s') := c s in k a s'.

Notation "'let*' x ':=' c 'in' k" := (bind c (fun x => k))
  (at level 10, x name, c at level 100, k at level 200).

Notation "c1 '>>' c2" := (bind c1 (fun _ => c2))
  (at level 100, c2 at level 200, right associativity).

(** [if err := c; err != nil { return err }] followed by [k]. *)
Definition orReturn (c k : M (option error)) : M (option error) :=
  let* r := c in
  match r with
  | Some e => ret (Some e)
  | None => k
  end.

Notation "'attempt' c 'in' k" := (orReturn c k)
  (at level 10, c at level 100, k at level 200).

Definition get {A} (f : TableView -> A) : M A := fun s => (f s.(tv), s).

Definition modify (f : TableView -> TableView) : M unit :=
  fun s => (tt, mkSt (f s.(tv)) s.(hist)).

(** Performs call [c], whose answer as a function of the history is [ans]. *)
Definition perform {A} (c : Call) (ans : History -> A) : M A :=
  fun s => (ans s.(hist), mkSt s.(tv) (c :: s.(hist))).

Section Widget.

Variable env : Env.

Definition SendMessage (hwnd : HWND) (m : Msg) : M Z :=
  perform (cSendMessage hwnd m) (fun h => env.(win_SendMessage) h hwnd m).

Definition Publish (e : EventKind) : M unit :=
  perform (cPublish e) (fun _ => tt).

(** [if win.FALSE == win.SendMessage(...) { return newError(msg) }];
    [win.FALSE] is [0]. *)
Definition sendOrFail (hwnd : HWND) (m : Msg) (msg : string)
  : M (option error) :=
  let* r := SendMessage hwnd m in
  ret (if r =? FALSE then Some (newError msg) else None).

(** [MultiSelection]: the style of the normal pane without
    [LVS_SINGLESEL]; a zero style counts as single selection. *)
Definition MultiSelection : M bool :=
  let* r := perform (cGetWindowLong hwndNormal GWL_STYLE)
              (fun h => env.(win_GetWindowLong) h hwndNormal GWL_STYLE) in
  let style := GoInt.uintptr r in
  ret (if style =? 0 then false else Z.land style LVS_SINGLESEL =? 0).

(** [publishSelectedIndexesChanged]: with a delay the timer is set (and a
    failure to set it is only reported to [lastError]), without one the
    event is published at once. *)
Definition publishSelectedIndexesChanged : M unit :=
  let* delay := get itemStateChangedEventDelay in
  if delay >? 0 then
    let* _ := perform
      (cSetTimer hWnd tableViewSelectedIndexesChangedTimerId (GoInt.uint32 delay))
      (fun h => env.(win_SetTimer) h hWnd
                  tableViewSelectedIndexesChangedTimerId (GoInt.uint32 delay)) in
    ret tt
  else Publish SelectedIndexesChanged.

(** The [LVM_GETNEXTITEM] loop of [updateSelectedIndexes]: [n] more
    items, the last one found being [j]. *)
Fixpoint nextSelected (n : nat) (j : Z) : M (list Z) :=
  match n with
  | O => ret []
  | S n' =>
      let* r := SendMessage hwndNormal
                  (LVM_GETNEXTITEM (GoInt.uintptr j) LVNI_SELECTED) in
      let j' := GoInt.int r in
      let* rest := nextSelected n' j' in
      ret (j' :: rest)
  end.

(** The element-wise comparison loop, run on slices of equal length. *)
Fixpoint elementsDiffer (indexes cached : list Z) : bool :=
  match indexes, cached with
  | x :: indexes', y :: cached' =>
      if x =? y then elementsDiffer indexes' cached' else true
  | _, _ => false
  end.

(** The first half of [updateSelectedIndexes]: the selection as the
    normal pane enumerates it.  [make([]int, count)] panics on a negative
    [count]; a list view reports none, and the loop then runs no round. *)
Definition readSelectedIndexes : M (list Z) :=
  let* r := SendMessage hwndNormal LVM_GETSELECTEDCOUNT in
  let count := GoInt.int r in
  nextSelected (Z.to_nat count) (-1).

(** [changed := len(indexes) != len(tv.selectedIndexes)], and failing
    that the element-wise loop. *)
Definition selectionChanged (indexes cached : list Z) : bool :=
  if negb (Nat.eqb (length indexes) (length cached)) then true
  else elementsDiffer indexes cached.

Definition updateSelectedIndexes : M unit :=
  let* indexes := readSelectedIndexes in
  let* cached := get selectedIndexes in
  if selectionChanged indexes cached then
    modify (set_selectedIndexes indexes) >>
    publishSelectedIndexesChanged
  else ret tt.

Definition ensureVisible (hwnd : HWND) (index : Z) : M (option error) :=
  sendOrFail hwnd (LVM_ENSUREVISIBLE (GoInt.uintptr index) 0)
             "SendMessage(LVM_ENSUREVISIBLE)".

Definition setItemState (hwnd : HWND) (wp state : Z) : M (option error) :=
  sendOrFail hwnd (LVM_SETITEMSTATE wp state (Z.lor LVIS_FOCUSED LVIS_SELECTED))
             "SendMessage(LVM_SETITEMSTATE)".

(** [SetCurrentIndex] past its guard, up to its [return]. *)
Definition SetCurrentIndex_body (index : Z) : M (option error) :=
  let* multi := MultiSelection in
  attempt (if multi then
             attempt setItemState hwndFrozen allItems 0 in
             setItemState hwndNormal allItems 0
           else ret None) in
  let state := if index >? -1 then Z.lor LVIS_FOCUSED LVIS_SELECTED else 0 in
  attempt setItemState hwndFrozen (GoInt.uintptr index) state in
  attempt setItemState hwndNormal (GoInt.uintptr index) state in
  attempt (if negb (index =? -1) then
             attempt ensureVisible hwndFrozen index in
             attempt ensureVisible hwndFrozen index in
             attempt ensureVisible hwndNormal index in
             ensureVisible hwndNormal index
           else ret None) in
  modify (set_currentIndex index) >>
  let* delay := get itemStateChangedEventDelay in
  (if (index =? -1) || (delay =? 0) then Publish CurrentIndexChanged
   else ret tt) >>
  let* multi' := MultiSelection in
  (if multi' then updateSelectedIndexes else ret tt) >>
  ret None.

(** [SetCurrentIndex]: a nested call returns at once; otherwise the
    guard is held over the body and dropped by the deferred function on
    every way out. *)
Definition SetCurrentIndex (index : Z) : M (option error) :=
  let* busy := get inSetCurrentIndex in
  if busy then ret None
  else
    modify (set_inSetCurrentIndex true) >>
    let* r := SetCurrentIndex_body index in
    modify (set_inSetCurrentIndex false) >>
    ret r.




(** [Invalidate]: both panes, then [WidgetBase.Invalidate]. *)
Definition Invalidate : M (option error) :=
  perform (cInvalidateRect hwndFrozen) (fun _ => tt) >>
  perform (cInvalidateRect hwndNormal) (fun _ => tt) >>
  let* r := perform cBaseInvalidate env.(base_Invalidate) in
  ret (newError <$> r).

Definition theSorter : M (option Sorter) :=
  let* m := get model in
  ret (match m with Some mdl => mdl.(asSorter) | None => None end).

Definition UpdateItem (index : Z) : M (option error) :=
  let* s := theSorter in
  match s with
  | Some s =>
      let* col := perform cSortedColumn s.(SortedColumn) in
      let* order := perform cSortOrder s.(sorter_SortOrder) in
      let* err := perform (cSort col order) (fun h => s.(Sort) h col order) in
      match err with
      | Some code => ret (Some (modelError code))
      | None => Invalidate
      end
  | None =>
      attempt sendOrFail hwndFrozen (LVM_UPDATE (GoInt.uintptr index))
                "LVM_UPDATE" in
      attempt sendOrFail hwndNormal (LVM_UPDATE (GoInt.uintptr index))
                "LVM_UPDATE" in
      ret None
  end.

Definition setItemCount : M (option error) :=
  let* m := get model in
  let* count := match m with
                | Some mdl => perform cRowCount mdl.(RowCount)
                | None => ret 0
                end in
  attempt sendOrFail hwndFrozen
            (LVM_SETITEMCOUNT (GoInt.uintptr count) LVSICF_NOSCROLL)
            "SendMessage(LVM_SETITEMCOUNT)" in
  attempt sendOrFail hwndNormal
            (LVM_SETITEMCOUNT (GoInt.uintptr count) LVSICF_NOSCROLL)
            "SendMessage(LVM_SETITEMCOUNT)" in
  ret None.

(** The handlers that [attachModel] attaches to the model's events. *)
Definition rowsResetHandler : M unit :=
  setItemCount >> SetCurrentIndex (-1) >> ret tt.

Definition rowChangedHandler (row : Z) : M unit :=
  UpdateItem row >> ret tt.

Definition rowsInsertedHandler (from to : Z) : M unit :=
  let* i := get currentIndex in
  setItemCount >>
  if from <=? i then
    let i' := GoInt.add i (GoInt.sub (GoInt.add 1 to) from) in
    SetCurrentIndex i' >> ret tt
  else ret tt.

Definition rowsRemovedHandler (from to : Z) : M unit :=
  let* i := get currentIndex in
  setItemCount >>
  let index :=
    if (from <=? i) && (i <=? to) then -1
    else if from <? i then GoInt.sub i (GoInt.sub (GoInt.add 1 to) from)
    else i in
  if negb (index =? i) then SetCurrentIndex index >> ret tt
  else ret tt.

End Widget.

(** ** Restoring the persisted layout *)

Section Restore.

Variable env : Env.

(** [name2tvc]: every column under its name, a later column replacing an
    earlier one of the same name. *)
Fixpoint name2tvc_from (items : TableViewColumnList) (p : nat)
         (m : gmap string nat) : gmap string nat :=
  match items with
  | [] => m
  | tvc :: rest => name2tvc_from rest (S p) (<[tvc.(name) := p]> m)
  end.

Definition name2tvc_of (items : TableViewColumnList) : gmap string nat :=
  name2tvc_from items 0%nat ∅.

(** A setter called on the column that pointer [p] designates. *)
Definition columnSet (p : nat) (op : ColumnSetter) : M (option error) :=
  let* items := get columns in
  match items !! p with
  | Some tvc =>
      let* r := perform (cColumnSet p op) (fun h => env.(col_set) h tvc op) in
      modify (set_columns (<[p := r.1]> items)) >>
      ret (newError <$> r.2)
  | None => ret None
  end.

(** [for _, name := range names { if name == n { visible = true; break } }] *)
Fixpoint containsName (names : list string) (n : string) : bool :=
  match names with
  | [] => false
  | name' :: rest => if String.eqb name' n then true else containsName rest n
  end.

(** The loop over [tvs.Columns] that applies title, width, visibility
    and pane to every column found by name.  ([name2tvcs] is filled there
    too and never read.) *)
Fixpoint restoreColumns (name2tvc : gmap string nat)
         (displayOrder : list string) (cols : list tableViewColumnState)
  : M (option error) :=
  match cols with
  | [] => ret None
  | tvcs :: rest =>
      attempt
        (match name2tvc !! tvcs.(Name) with
         | Some p =>
             attempt columnSet p (SetTitleOverride tvcs.(Title)) in
             attempt columnSet p (SetWidth tvcs.(Width)) in
             let* items := get columns in
             let visible' :=
               match items !! p with
               | Some tvc => tvc.(visible) && containsName displayOrder tvc.(name)
               | None => false
               end in
             attempt columnSet p (SetVisible visible') in
             columnSet p (SetFrozen tvcs.(Frozen))
         | None => ret None
         end) in
      restoreColumns name2tvc displayOrder rest
  end.

(** Is the column that [name2tvc] has under [n] visible? *)
Definition liveVisible (name2tvc : gmap string nat)
           (items : TableViewColumnList) (n : string) : bool :=
  match name2tvc !! n with
  | Some p =>
      match items !! p with
      | Some tvc => tvc.(visible)
      | None => false
      end
  | None => false
  end.

(** First loop of the reconciliation, over [tvs.ColumnDisplayOrder]. *)
Fixpoint keepKnown (name2tvc : gmap string nat) (items : TableViewColumnList)
         (names : list string) (knownNames : gset string)
         (displayOrder : list string) : gset string * list string :=
  match names with
  | [] => (knownNames, displayOrder)
  | n :: rest =>
      keepKnown name2tvc items rest ({[n]} ∪ knownNames)
        (if liveVisible name2tvc items n then displayOrder ++ [n]
         else displayOrder)
  end.

(** Second loop, over [tv.visibleColumns()]. *)
Fixpoint appendUnknown (cols : TableViewColumnList) (knownNames : gset string)
         (displayOrder : list string) : list string :=
  match cols with
  | [] => displayOrder
  | tvc :: rest =>
      appendUnknown rest knownNames
        (if bool_decide (tvc.(name) ∈ knownNames) then displayOrder
         else displayOrder ++ [tvc.(name)])
  end.

Definition reconcileDisplayOrder (name2tvc : gmap string nat)
           (items : TableViewColumnList) (persisted : list string)
  : list string :=
  let (knownNames, displayOrder) := keepKnown name2tvc items persisted ∅ [] in
  appendUnknown (ColumnIndex.visibleColumns items) knownNames displayOrder.

(** The inner loop that looks a column's name up in [displayOrder]. *)
Fixpoint findSlot (n : string) (displayOrder : list string)
         (j visibleCount : Z) : option Z :=
  match displayOrder with
  | [] => None
  | name' :: rest =>
      if String.eqb n name' && (j <? visibleCount) then Some j
      else findSlot n rest (j + 1) visibleCount
  end.

Fixpoint fillIndices (cols : TableViewColumnList) (i : Z)
         (displayOrder : list string) (visibleCount frozenCount : Z)
         (indices : list Z) : list Z :=
  match cols with
  | [] => indices
  | tvc :: rest =>
      fillIndices rest (i + 1) displayOrder visibleCount frozenCount
        (match findSlot tvc.(name) displayOrder 0 visibleCount with
         | Some j =>
             let idx := if j >=? frozenCount then GoInt.sub i frozenCount
                        else i in
             <[Z.to_nat j := GoInt.int32 idx]> indices
         | None => indices
         end)
  end.

(** [for i, c := range tvs.Columns] looking for the sort column. *)
Fixpoint findSortColumn (cols : list tableViewColumnState) (i : Z)
         (sortName : string) (visibleCount : Z) : option Z :=
  match cols with
  | [] => None
  | c :: rest =>
      if String.eqb c.(Name) sortName && (i <? visibleCount) then Some i
      else findSortColumn rest (i + 1) sortName visibleCount
  end.

(** [for i := range tvs.Columns { if sorter.ColumnSortable(i) {
    tv.sortedColumnIndex = i } }] *)
Fixpoint pickSortable (s : Sorter) (cols : list tableViewColumnState)
         (i : Z) : M unit :=
  match cols with
  | [] => ret tt
  | _ :: rest =>
      let* sortable := perform (cColumnSortable i)
                         (fun h => s.(ColumnSortable) h i) in
      (if sortable then modify (set_sortedColumnIndex i) else ret tt) >>
      pickSortable s rest (i + 1)
  end.

(** The end of [RestoreState]: the sort column by name, then the
    model's say on it. *)
Definition restoreSort (tvs : tableViewState) (visibleCount : Z) : M unit :=
  (match findSortColumn tvs.(tvs_Columns) 0 tvs.(SortColumnName) visibleCount with
   | Some i =>
       modify (set_sortedColumnIndex i) >>
       modify (set_sortOrder tvs.(tvs_SortOrder))
   | None => ret tt
   end) >>
  let* s := theSorter in
  match s with
  | Some s =>
      let* cur := get sortedColumnIndex in
      let* sortable := perform (cColumnSortable cur)
                         (fun h => s.(ColumnSortable) h cur) in
      (if negb sortable then pickSortable s tvs.(tvs_Columns) 0
       else ret tt) >>
      let* col := get sortedColumnIndex in
      perform (cSort col tvs.(tvs_SortOrder))
              (fun h => s.(Sort) h col tvs.(tvs_SortOrder)) >>
      ret tt
  | None => ret tt
  end.

(** [RestoreState] from the decoded state on. *)
Definition restoreLayout (tvs : tableViewState) : M (option error) :=
  let* items0 := get columns in
  let name2tvc := name2tvc_of items0 in
  attempt restoreColumns name2tvc tvs.(ColumnDisplayOrder) tvs.(tvs_Columns) in
  let* items := get columns in
  let visibleCount := ColumnIndex.visibleColumnCount items in
  let frozenCount := ColumnIndex.visibleFrozenColumnCount items in
  let normalCount := GoInt.sub visibleCount frozenCount in
  let displayOrder :=
    reconcileDisplayOrder name2tvc items tvs.(ColumnDisplayOrder) in
  let indices :=
    fillIndices (ColumnIndex.visibleColumns items) 0 displayOrder
      visibleCount frozenCount (replicate (Z.to_nat visibleCount) 0) in
  attempt (if frozenCount >? 0 then
             sendOrFail env hwndFrozen
               (LVM_SETCOLUMNORDERARRAY (GoInt.uintptr frozenCount) indices)
               "LVM_SETCOLUMNORDERARRAY"
           else ret None) in
  attempt (if normalCount >? 0 then
             sendOrFail env hwndNormal
               (LVM_SETCOLUMNORDERARRAY (GoInt.uintptr normalCount)
                  (drop (Z.to_nat frozenCount) indices))
               "LVM_SETCOLUMNORDERARRAY"
           else ret None) in
  restoreSort tvs visibleCount >>
  ret None.

Definition RestoreState : M (option error) :=
  let* r := perform cReadState env.(base_ReadState) in
  match r with
  | inr msg => ret (Some (newError msg))
  | inl state =>
      if String.eqb state EmptyString then ret None
      else
        perform (cSetSuspended true) (fun _ => tt) >>
        let* res :=
          match env.(json_Unmarshal) state with
          | inr msg => ret (Some (jsonError msg))
          | inl tvs => restoreLayout tvs
          end in
        perform (cSetSuspended false) (fun _ => tt) >>
        ret res
  end.

End Restore.

(** ** Cell text *)

Section CellText.

(** The Go types of a cell value that the widget tells apart, and the
    formatters it hands them to: [FormatFloatGrouped] and
    [formatBigRatGrouped] of this package, [time.Time]'s [Year] and
    [Format], [fmt.Sprintf] with one operand. *)
Context {float32 float64 Time Rat Other : Type}.
Variable float64_of_float32 : float32 -> float64.
Variable FormatFloatGrouped : float64 -> Z -> string.
Variable formatBigRatGrouped : Rat -> Z -> string.
Variable Year : Time -> Z.
Variable TimeFormat : Time -> string -> string.

(** What [tv.model.Value(row, col)] can hold, by dynamic type. *)
Inductive CellValue :=
| VString (s : string)
| VFloat32 (f : float32)
| VFloat64 (f : float64)
| VTime (t : Time)
| VBool (b : bool)
| VBigRat (r : Rat)
| VOther (o : Other).

Variable Sprintf : string -> CellValue -> string.

(** [string([]byte{0xE2, 0x9C, 0x94})] *)
Definition checkmark : string :=
  String (Ascii.ascii_of_N 226)
    (String (Ascii.ascii_of_N 156) (String (Ascii.ascii_of_N 148) EmptyString)).

(** [prec := col.precision; if prec == 0 { prec = 2 }] *)
Definition effectivePrecision (col : TableViewColumn) : Z :=
  if col.(precision) =? 0 then 2 else col.(precision).

(** The type switch of the [LVIF_TEXT] branch of [LVN_GETDISPINFO]. *)
Definition cellText (col : TableViewColumn) (val : CellValue) : string :=
  match val with
  | VString s => s
  | VFloat32 f =>
      FormatFloatGrouped (float64_of_float32 f) (effectivePrecision col)
  | VFloat64 f => FormatFloatGrouped f (effectivePrecision col)
  | VTime t => if Year t >? 1601 then TimeFormat t col.(format) else EmptyString
  | VBool b => if b then checkmark else EmptyString
  | VBigRat r => formatBigRatGrouped r (effectivePrecision col)
  | VOther _ => Sprintf col.(format) val
  end.

(** The text that [lvWndProc] resolves for sub-item [iSubItem] of a pane:
    nothing when the sub-item maps to no column. *)
Definition dispInfoText (items : TableViewColumnList) (frozenPane : bool)
           (iSubItem : Z) (value : Z -> CellValue) : option string :=
  let col := ColumnIndex.fromLVColIdx items frozenPane iSubItem in
  if col =? -1 then None
  else (fun tvc => cellText tvc (value col)) <$> items !! Z.to_nat col.

End CellText.

(** ** Reading histories *)

(** The notification of [publishSelectedIndexesChanged] for a widget: a
    timer request when a delay is configured, the event itself otherwise. *)
Definition selNotification (t : TableView) : Call :=
  if t.(itemStateChangedEventDelay) >? 0 then
    cSetTimer hWnd tableViewSelectedIndexesChangedTimerId
              (GoInt.uint32 t.(itemStateChangedEventDelay))
  else cPublish SelectedIndexesChanged.

(** Published events and timer requests, the calls that notify. *)
Definition isNotification (c : Call) : bool :=
  match c with
  | cPublish _ | cSetTimer _ _ _ => true
  | _ => false
  end.

Definition notifications (h : History) : History :=
  List.filter isNotification h.

Definition isPublish (e : EventKind) (c : Call) : bool :=
  match c, e with
  | cPublish CurrentIndexChanged, CurrentIndexChanged => true
  | cPublish SelectedIndexesChanged, SelectedIndexesChanged => true
  | _, _ => false
  end.

(** How often event [e] was published in a history. *)
Definition published (e : EventKind) (h : History) : nat :=
  length (List.filter (isPublish e) h).

(** A step that leaves the widget alone and notifies nobody. *)
Definition silentStep (s s' : State) : Prop :=
  tv s' = tv s /\
  exists h', hist s' = h' ++ hist s /\ notifications h' = [].

Definition silent {A} (c : M A) : Prop := forall s, silentStep s (c s).2.

(** The list views carry out an item-state or ensure-visible request. *)
Definition isItemRequest (m : Msg) : bool :=
  match m with
  | LVM_SETITEMSTATE _ _ _ | LVM_ENSUREVISIBLE _ _ => true
  | _ => false
  end.

Definition accepts (env : Env) : Prop :=
  forall h hwnd m, isItemRequest m = true ->
                   env.(win_SendMessage) h hwnd m <> FALSE.

(** The normal pane reports a selection count that [int] holds as a
    non-negative number. *)
Definition countsItems (env : Env) : Prop :=
  forall h, 0 <= GoInt.int (env.(win_SendMessage) h hwndNormal LVM_GETSELECTEDCOUNT).

(** The number of current-index-changed events that one call of
    [SetCurrentIndex index] publishes itself. *)
Definition publishedBy (index : Z) (t : TableView) : nat :=
  if (index =? -1) || (itemStateChangedEventDelay t =? 0) then 1%nat
  else 0%nat.

(** An error that came from the model. *)
Definition isModelError (r : option error) : Prop :=
  exists code, r = Some (modelError code).

(** The live visible columns that the persisted order does not name, as
    the registry orders them. *)
Definition unlisted (items : TableViewColumnList) (persisted : list string)
  : list string :=
  name <$> filter (fun tvc => tvc.(name) ∉ persisted)
                  (ColumnIndex.visibleColumns items).

(** The two-column registry on which the round trip is lost: a visible
    normal column followed by a visible frozen one. *)
Definition normalThenFrozen : TableViewColumnList :=
  [ mkColumn "a" EmptyString 100 false true 0 EmptyString;
    mkColumn "b" EmptyString 100 true true 0 EmptyString ].

(** ** An environment to run examples in *)

(** What the setters of [TableViewColumn] store. *)
Definition applySetter (tvc : TableViewColumn) (op : ColumnSetter)
  : TableViewColumn :=
  match op with
  | SetTitleOverride t =>
      mkColumn tvc.(name) t tvc.(width) tvc.(frozen) tvc.(visible)
               tvc.(precision) tvc.(format)
  | SetWidth w =>
      mkColumn tvc.(name) tvc.(titleOverride) w tvc.(frozen) tvc.(visible)
               tvc.(precision) tvc.(format)
  | SetVisible v =>
      mkColumn tvc.(name) tvc.(titleOverride) tvc.(width) tvc.(frozen) v
               tvc.(precision) tvc.(format)
  | SetFrozen f =>
      mkColumn tvc.(name) tvc.(titleOverride) tvc.(width) f tvc.(visible)
               tvc.(precision) tvc.(format)
  end.

(** Single-selection list views with nothing selected that carry out
    every request; no persisted state. *)
Definition calmEnv : Env :=
  mkEnv
    (fun _ _ m =>
       match m with
       | LVM_GETSELECTEDCOUNT => 0
       | LVM_GETNEXTITEM _ _ => allItems
       | _ => 1
       end)
    (fun _ _ _ => LVS_SINGLESEL)
    (fun _ _ _ _ => 1)
    (fun _ => None)
    (fun _ => inl EmptyString)
    (fun _ => inr "unexpected end of JSON input")
    (fun _ tvc op => (applySetter tvc op, None)).

(** A widget without columns or model, nothing current or selected. *)
Definition idleView : TableView :=
  mkTableView [] None [] 0 (-1) false false 0 false 0 SortAscending false.

(** ** A persisted layout whose sort column the model will not sort *)

Definition plainColumn (n : string) : TableViewColumn :=
  mkColumn n EmptyString 100 false true 0 EmptyString.

Definition threeColumns : TableViewColumnList :=
  [plainColumn "a"; plainColumn "b"; plainColumn "c"].

(** A model that sorts by every column but the first. *)
Definition sortsAllButFirst : Sorter :=
  mkSorter (fun _ _ _ => None) (fun _ => 0) (fun _ => SortAscending)
           (fun _ col => negb (col =? 0)).

Definition sortedView : TableView :=
  mkTableView threeColumns
    (Some (mkModel (fun _ => 0) (Some sortsAllButFirst)))
    [] 0 (-1) false false 0 false 0 SortAscending false.

(** Saved with the three columns in place and sorted by ["a"]. *)
Definition savedLayout : tableViewState :=
  mkState "a" SortAscending ["a"; "b"; "c"]
    [ mkColumnState "a" EmptyString 100 false;
      mkColumnState "b" EmptyString 100 false;
      mkColumnState "c" EmptyString 100 false ].

(** [calmEnv] with [savedLayout] in the settings. *)
Definition savedEnv : Env :=
  mkEnv calmEnv.(win_SendMessage) calmEnv.(win_GetWindowLong)
        calmEnv.(win_SetTimer) calmEnv.(base_Invalidate)
        (fun _ => inl "saved") (fun _ => inl savedLayout)
        calmEnv.(col_set).

(** ** Notifications of the list views *)




(** Events of the publishers that [EventKind] does not list.  A branch of
    the window procedure hands back those it publishes; it publishes them
    after its last call to the outside. *)
Inductive Signal := ItemActivated | ColumnClicked (col : Z).

Section Notify.

Variable env : Env.



(** [if col != prevCol || sorter.SortOrder() == SortDescending]: the
    model is asked for its order only when the column is the sorted one. *)
Definition clickOrder (s : Sorter) (col prevCol : Z) : M SortOrder :=
  if negb (col =? prevCol) then ret SortAscending
  else
    let* order := perform cSortOrder s.(sorter_SortOrder) in
    ret (match order with
         | SortDescending => SortAscending
         | SortAscending => SortDescending
         end).

(** The [LVN_COLUMNCLICK] branch, for the pane that sent it and the
    [ISubItem] of the notification. *)
Definition onColumnClick (frozenPane : bool) (iSubItem : Z) : M (list Signal) :=
  let* items := get columns in
  let col := ColumnIndex.fromLVColIdx items frozenPane iSubItem in
  let* s := theSorter in
  (match s with
   | Some s =>
       let* sortable := perform (cColumnSortable col)
                          (fun h => s.(ColumnSortable) h col) in
       if sortable then
         let* prevCol := perform cSortedColumn s.(SortedColumn) in
         let* order := clickOrder s col prevCol in
         modify (set_sortedColumnIndex col) >>
         modify (set_sortOrder order) >>
         perform (cSort col order) (fun h => s.(Sort) h col order) >>
         ret tt
       else ret tt
   | None => ret tt
   end) >>
  ret [ColumnClicked col].

End Notify.

(** ** The text buffer of a cell *)

(** [di.Item.PszText] is written through as an array of 264 [uint16]. *)
Definition textBufferLength : nat := 264.

(** The end of the [LVIF_TEXT] branch: the first [max] code units of
    [utf16] (the text as [syscall.StringToUTF16] encodes it) go to the
    buffer and a NUL is put at [max - 1].  [mini] is the package's minimum
    of two ints; [None] stands for the run-time panic of a slice bound or
    an index out of range. *)
Definition writeText (mini : Z -> Z -> Z) (utf16 : list Z) (cchTextMax : Z)
           (buf : list Z) : option (list Z) :=
  let max := mini (Z.of_nat (length utf16)) cchTextMax in
  if max <? 0 then None
  else
    let src := take (Z.to_nat max) utf16 in
    let n := Nat.min textBufferLength (length src) in
    let buf' := take n src ++ drop n buf in
    if (0 <=? max - 1) && (max - 1 <? Z.of_nat textBufferLength)
    then Some (<[Z.to_nat (max - 1) := 0]> buf')
    else None.

(** ** The display order that is saved *)

(** [cols[j]] for a signed index; none when Go would panic. *)
Definition at_index {A} (l : list A) (j : Z) : option A :=
  if j <? 0 then None else l !! Z.to_nat j.

(** [for i, j := range indices { if i >= frozenCount { j +=
    int32(frozenCount) }; tvs.ColumnDisplayOrder[i] = visibleCols[j].name }]
    of [SaveState], from position [i] on; [indices] holds the order array
    of the frozen pane followed by that of the normal pane. *)
Fixpoint savedDisplayOrder (visibleCols : TableViewColumnList)
         (frozenCount : Z) (indices : list Z) (i : Z) : option (list string) :=
  match indices with
  | [] => Some []
  | j :: rest =>
      let j' := if i >=? frozenCount
                then GoInt.int32 (j + GoInt.int32 frozenCount) else j in
      match at_index visibleCols j' with
      | Some tvc =>
          match savedDisplayOrder visibleCols frozenCount rest (i + 1) with
          | Some names => Some (tvc.(name) :: names)
          | None => None
          end
      | None => None
      end
  end.

(** The same loop in [VisibleColumnsInDisplayOrder], which tests
    [i > frozenCount] and collects the columns. *)
Fixpoint orderedColumns (visibleCols : TableViewColumnList)
         (frozenCount : Z) (indices : list Z) (i : Z)
  : option TableViewColumnList :=
  match indices with
  | [] => Some []
  | j :: rest =>
      let j' := if i >? frozenCount
                then GoInt.int32 (j + GoInt.int32 frozenCount) else j in
      match at_index visibleCols j' with
      | Some tvc =>
          match orderedColumns visibleCols frozenCount rest (i + 1) with
          | Some cols => Some (tvc :: cols)
          | None => None
          end
      | None => None
      end
  end.

(** The number of visible columns of a pane as [RestoreState] and
    [SaveState] compute it: the count of frozen ones for the frozen pane,
    the difference of the two counts for the normal pane. *)
Definition paneCount (items : TableViewColumnList) (f : bool) : Z :=
  if f then ColumnIndex.visibleFrozenColumnCount items
  else ColumnIndex.visibleColumnCount items
       - ColumnIndex.visibleFrozenColumnCount items.

(** ** The requests of a selection *)



(** ** Requests and their errors *)





(** [idleView] with a delay of 200 ms for its item-state events. *)
Definition delayedView : TableView :=
  mkTableView [] None [] 0 (-1) false false 200 false 0 SortAscending false.

(** ** What a function may call *)

(** [c] only adds calls to the history, and every call it adds is one
    that [P] allows. *)
Definition emits (P : Call -> Prop) {A} (c : M A) : Prop :=
  forall s, exists h', hist (c s).2 = h' ++ hist s /\ Forall P h'.


(** The calls of [RestoreState] while the widget is suspended: the column
    setters, the column order of the panes and the model's sorter. *)
Definition isRestoreCall (c : Call) : Prop :=
  match c with
  | cColumnSet _ _
  | cSendMessage _ (LVM_SETCOLUMNORDERARRAY _ _)
  | cColumnSortable _
  | cSort _ _ => True
  | _ => False
  end.


(** ** Restoring what was saved *)

(** The order array that [RestoreState] has filled in once the first [k]
    visible columns are done, when [names] were saved from [indices]: the
    saved entry wherever the name is that of one of these columns, zero
    elsewhere. *)
Definition restoredSoFar (vis : TableViewColumnList) (indices : list Z)
           (names : list string) (k : nat) : list Z :=
  zip_with (fun idx nm =>
              if bool_decide (nm ∈ name <$> take k vis) then idx else 0)
           indices names.

(** A frozen column followed by two normal ones, all visible. *)
Definition frozenFirst : TableViewColumnList :=
  [ mkColumn "f" EmptyString 100 true true 0 EmptyString;
    plainColumn "a"; plainColumn "b" ].

(** [t'] is [t] but for the columns, the index of the sorted column and
    the sort order. *)
Definition layoutOnly (t t' : TableView) : Prop :=
  t' = set_columns t'.(columns)
         (set_sortedColumnIndex t'.(sortedColumnIndex)
            (set_sortOrder t'.(sortOrder) t)).

(** [c] takes the widget to one that [R] relates to it. *)
Definition keeps (R : TableView -> TableView -> Prop) {A} (c : M A) : Prop :=
  forall s, R (tv s) (tv (c s).2).

(** ** The sort icon *)

(** [iPtr := uintptr(offset + i)] of [setSortIcon]: the header item that
    is read and written for the column at position [i] of
    [visibleColumns], [offset] being [-frozenCount] for a column of the
    normal pane. *)
Definition headerItem (frozenCount i : Z) (col : TableViewColumn) : Z :=
  let offset := if col.(frozen) then 0 else GoInt.int (- frozenCount) in
  GoInt.uintptr (GoInt.add offset i).

(** No column of the normal pane comes before one of the frozen pane. *)
Definition frozenLead (cols : TableViewColumnList) : Prop :=
  forall (j k : nat) cj ck,
    (j < k)%nat -> cols !! j = Some cj -> cols !! k = Some ck ->
    ck.(frozen) = true -> cj.(frozen) = true.

(** * Properties *)

(** ** Integer facts *)

Module GoIntFacts.
Import GoInt.

Lemma int_small z : is_int z -> int z = z.
Proof.
  unfold is_int, min_int, max_int, int, wrap. intros H.
  rewrite Z.mod_small; lia.
Qed.

Lemma int32_small z : is_int32 z -> int32 z = z.
Proof.
  unfold is_int32, max_int32, int32, wrap. intros H.
  rewrite Z.mod_small; lia.
Qed.

Lemma incr32_small z : 0 <= z < max_int32 -> incr32 z = z + 1.
Proof.
  intros H. unfold incr32. apply int32_small.
  unfold is_int32, max_int32 in *. lia.
Qed.

Lemma int_is_int z : is_int (int z).
Proof.
  unfold is_int, min_int, max_int, int, wrap.
  pose proof (Z.mod_pos_bound (z + 2 ^ (64 - 1)) (2 ^ 64)). lia.
Qed.

(** Wrapping an operand first does not change a wrapped sum or
    difference. *)
Lemma int_add_int_r a b : int (a + int b) = int (a + b).
Proof.
  unfold int, wrap. f_equal.
  replace (a + ((b + 2 ^ (64 - 1)) mod 2 ^ 64 - 2 ^ (64 - 1)) + 2 ^ (64 - 1))
    with (a + (b + 2 ^ (64 - 1)) mod 2 ^ 64) by lia.
  rewrite Zplus_mod_idemp_r. f_equal. lia.
Qed.

Lemma int_add_int_l a b : int (int a + b) = int (a + b).
Proof. rewrite Z.add_comm, int_add_int_r. f_equal. lia. Qed.

Lemma int_sub_int_l a b : int (int a - b) = int (a - b).
Proof.
  unfold int, wrap. f_equal.
  replace ((a + 2 ^ (64 - 1)) mod 2 ^ 64 - 2 ^ (64 - 1) - b + 2 ^ (64 - 1))
    with ((a + 2 ^ (64 - 1)) mod 2 ^ 64 - b) by lia.
  rewrite Zminus_mod_idemp_l. f_equal. lia.
Qed.

Lemma int_sub_int_r a b : int (a - int b) = int (a - b).
Proof.
  unfold int, wrap. f_equal.
  change (64 - 1) with 63. change (2 ^ 64) with (2 * 2 ^ 63).
  set (P := 2 ^ 63).
  replace (a - ((b + P) mod (2 * P) - P) + P)
    with (a + 2 * P - (b + P) mod (2 * P)) by lia.
  rewrite Zminus_mod_idemp_r.
  f_equal. lia.
Qed.

(** [i + (1 + to - from)] and [i - (1 + to - from)] as Go computes them
    are the exact results reduced once. *)
Lemma add_span i from to :
  add i (sub (add 1 to) from) = int (i + (1 + to - from)).
Proof.
  unfold add, sub. rewrite int_add_int_r.
  replace (i + (int (1 + to) - from)) with (int (1 + to) + (i - from)) by lia.
  rewrite int_add_int_l. f_equal. lia.
Qed.

Lemma sub_span i from to :
  sub i (sub (add 1 to) from) = int (i - (1 + to - from)).
Proof.
  unfold add, sub. rewrite int_sub_int_r.
  replace (i - (int (1 + to) - from)) with (i + from - int (1 + to)) by lia.
  rewrite int_sub_int_r. f_equal. lia.
Qed.

End GoIntFacts.

(** ** Logical and visual column indexes *)

Module ColumnIndexFacts.
Import GoInt GoIntFacts ColumnIndex.

Lemma visibleRank_cons c cols :
  visibleRank (c :: cols)
  = (if c.(visible) then 1 else 0) + visibleRank cols.
Proof.
  unfold visibleRank, visibleColumns. rewrite filter_cons.
  case_decide as H.
  - rewrite H. simpl length. lia.
  - destruct (visible c); [done | lia].
Qed.

Lemma paneRank_cons f c cols :
  paneRank f (c :: cols)
  = (if eqb f c.(frozen) && c.(visible) then 1 else 0) + paneRank f cols.
Proof.
  unfold paneRank. rewrite filter_cons.
  case_decide as H.
  - destruct H as [Hv Hf]. rewrite Hv, Hf, eqb_reflx. simpl length. simpl. lia.
  - destruct (visible c) eqn:Hv, (eqb f (frozen c)) eqn:He; simpl; try lia.
    exfalso. apply H. split; [done|]. symmetry. by apply eqb_prop.
Qed.

Lemma visibleRank_range cols :
  0 <= visibleRank cols <= Z.of_nat (length cols).
Proof.
  induction cols as [|c cols IH]; [unfold visibleRank; simpl; lia|].
  rewrite visibleRank_cons. simpl length. destruct (visible c); lia.
Qed.

Lemma paneRank_range f cols : 0 <= paneRank f cols <= visibleRank cols.
Proof.
  induction cols as [|c cols IH]; [unfold paneRank, visibleRank; simpl; lia|].
  rewrite paneRank_cons, visibleRank_cons.
  destruct (visible c), (eqb f (frozen c)); simpl; lia.
Qed.

(** With every visible column of a prefix in pane [f], the two ranks of
    the prefix agree. *)
Lemma paneRank_same_pane f cols :
  Forall (fun c => c.(visible) = true -> c.(frozen) = f) cols ->
  paneRank f cols = visibleRank cols.
Proof.
  induction 1 as [|c cols Hc _ IH]; [done|].
  rewrite paneRank_cons, visibleRank_cons, IH.
  destruct (visible c); [|by rewrite andb_false_r].
  rewrite Hc by done. by rewrite eqb_reflx.
Qed.

(** [toLVColIdx] at a visible column: the number of visible columns
    before it. *)
Lemma toLVColIdx_loop_at pre c post i idx :
  c.(visible) = true ->
  0 <= idx -> idx + visibleRank pre <= max_int32 ->
  toLVColIdx_loop (i + Z.of_nat (length pre)) (pre ++ c :: post) i idx
  = idx + visibleRank pre.
Proof.
  intros Hc. revert i idx.
  induction pre as [|x pre IH]; intros i idx Hidx Hmax;
    cbn [app length toLVColIdx_loop].
  - rewrite Hc, Z.add_0_r, Z.eqb_refl. unfold visibleRank. simpl. lia.
  - rewrite visibleRank_cons in *.
    pose proof (visibleRank_range pre).
    rewrite Nat2Z.inj_succ.
    replace (i + Z.succ (Z.of_nat (length pre)))
      with (i + 1 + Z.of_nat (length pre)) by lia.
    destruct (visible x).
    + replace (i =? i + 1 + Z.of_nat (length pre)) with false
        by (symmetry; apply Z.eqb_neq; lia).
      rewrite incr32_small by lia. rewrite IH by lia. lia.
    + rewrite IH by lia. lia.
Qed.

(** [fromLVColIdx] finds a visible column of pane [f] from its rank
    among the visible columns of that pane. *)
Lemma fromLVColIdx_loop_at f pre c post i idx :
  c.(visible) = true -> c.(frozen) = f ->
  0 <= idx -> idx + paneRank f pre <= max_int32 ->
  fromLVColIdx_loop f (idx + paneRank f pre) (pre ++ c :: post) i idx
  = i + Z.of_nat (length pre).
Proof.
  intros Hv Hf. revert i idx.
  induction pre as [|x pre IH]; intros i idx Hidx Hmax;
    cbn [app length fromLVColIdx_loop].
  - rewrite Hv, Hf, eqb_reflx. cbn [andb].
    unfold paneRank. simpl. rewrite !Z.add_0_r, Z.eqb_refl. done.
  - rewrite paneRank_cons in *.
    pose proof (paneRank_range f pre).
    rewrite Nat2Z.inj_succ.
    destruct (eqb f (frozen x) && visible x).
    + replace (idx =? idx + (1 + paneRank f pre)) with false
        by (symmetry; apply Z.eqb_neq; lia).
      rewrite incr32_small by lia.
      replace (idx + (1 + paneRank f pre)) with (idx + 1 + paneRank f pre)
        by lia.
      rewrite IH by lia. lia.
    + replace (idx + (0 + paneRank f pre)) with (idx + paneRank f pre)
        by lia.
      rewrite IH by lia. lia.
Qed.

Lemma toLVColIdx_visible items (i : nat) c :
  Z.of_nat (length items) <= max_int32 ->
  items !! i = Some c -> c.(visible) = true ->
  toLVColIdx items (Z.of_nat i) = visibleRank (take i items).
Proof.
  intros Hlen Hi Hv.
  pose proof (lookup_lt_Some _ _ _ Hi) as Hlt.
  assert (Hpre : length (take i items) = i) by (rewrite length_take; lia).
  pose proof (visibleRank_range (take i items)) as Hr.
  pose proof (toLVColIdx_loop_at (take i items) c (drop (S i) items) 0 0 Hv)
    as H.
  rewrite Hpre, !Z.add_0_l, take_drop_middle in H by done.
  unfold toLVColIdx. rewrite H; lia.
Qed.

Lemma fromLVColIdx_paneRank items (i : nat) c :
  Z.of_nat (length items) <= max_int32 ->
  items !! i = Some c -> c.(visible) = true ->
  fromLVColIdx items c.(frozen) (paneRank c.(frozen) (take i items))
  = Z.of_nat i.
Proof.
  intros Hlen Hi Hv.
  pose proof (lookup_lt_Some _ _ _ Hi) as Hlt.
  assert (Hpre : length (take i items) = i) by (rewrite length_take; lia).
  pose proof (visibleRank_range (take i items)) as Hr.
  pose proof (paneRank_range (frozen c) (take i items)) as Hp.
  pose proof (fromLVColIdx_loop_at (frozen c) (take i items) c
                (drop (S i) items) 0 0 Hv eq_refl) as H.
  rewrite Hpre, !Z.add_0_l, take_drop_middle in H by done.
  unfold fromLVColIdx. rewrite H; lia.
Qed.

(** If the two ranks of a prefix agree, every visible column of it lies
    in pane [f]. *)
Lemma paneRank_same_pane_inv f cols :
  paneRank f cols = visibleRank cols ->
  Forall (fun c => c.(visible) = true -> c.(frozen) = f) cols.
Proof.
  induction cols as [|c cols IH]; [done|].
  rewrite paneRank_cons, visibleRank_cons.
  pose proof (paneRank_range f cols) as Hr.
  destruct (visible c) eqn:Hv, (eqb f (frozen c)) eqn:Hf; simpl; intros Heq.
  - constructor; [|apply IH; lia]. intros _. symmetry. by apply eqb_prop.
  - lia.
  - constructor; [congruence | apply IH; lia].
  - constructor; [congruence | apply IH; lia].
Qed.

(** What [fromLVColIdx] returns, when it is a column, is a visible column
    of pane [f] whose rank in that pane is the index asked for. *)
Lemma fromLVColIdx_loop_found f index items i idx :
  0 <= i -> 0 <= idx -> idx + paneRank f items <= max_int32 ->
  fromLVColIdx_loop f index items i idx <> -1 ->
  exists pre c post,
    items = pre ++ c :: post /\
    fromLVColIdx_loop f index items i idx = i + Z.of_nat (length pre) /\
    c.(visible) = true /\ c.(frozen) = f /\
    index = idx + paneRank f pre.
Proof.
  revert i idx.
  induction items as [|x items IH]; intros i idx Hi Hidx Hmax;
    cbn [fromLVColIdx_loop]; [done|].
  rewrite paneRank_cons in Hmax. pose proof (paneRank_range f items).
  destruct (eqb f (frozen x) && visible x) eqn:Hx.
  - destruct (idx =? index) eqn:Hhit.
    + intros _. exists [], x, items.
      apply andb_prop in Hx as [Hf Hv]. apply eqb_prop in Hf.
      apply Z.eqb_eq in Hhit. unfold paneRank. simpl.
      repeat split; [lia | done | done | lia].
    + rewrite incr32_small by lia. intros Hr.
      destruct (IH (i + 1) (idx + 1)) as (pre & c & post & -> & Hres & Hv & Hf & Hrank);
        [lia | lia | lia | done |].
      exists (x :: pre), c, post. rewrite Hres, paneRank_cons, Hx.
      cbn [length]. repeat split; [lia | done | done | lia].
  - intros Hr.
    destruct (IH (i + 1) idx) as (pre & c & post & -> & Hres & Hv & Hf & Hrank);
      [lia | lia | lia | done |].
    exists (x :: pre), c, post. rewrite Hres, paneRank_cons, Hx.
    cbn [length]. repeat split; [lia | done | done | lia].
Qed.

(** C1, as the claim states it, fails: for the visible frozen column at
    logical index 1 behind a visible normal column, [toLVColIdx] answers 1
    (its rank among all visible columns, not the rank 0 it has in its own
    pane) and [fromLVColIdx] of the frozen pane finds no column there. *)
Lemma roundtrip_counterexample :
  exists c,
    normalThenFrozen !! 1%nat = Some c /\ c.(visible) = true /\
    toLVColIdx normalThenFrozen 1 = 1 /\
    paneRank c.(frozen) (take 1 normalThenFrozen) = 0 /\
    fromLVColIdx normalThenFrozen c.(frozen) (toLVColIdx normalThenFrozen 1)
    = -1 /\
    fromLVColIdx normalThenFrozen c.(frozen) (toLVColIdx normalThenFrozen 1)
    <> 1.
Proof.
  eexists. split; [reflexivity|]. split; [reflexivity|].
  repeat split; vm_compute; discriminate.
Qed.

(** C1, amended: [toLVColIdx i] is the rank of the visible column [i]
    among all visible columns that precede it, of either pane, and
    [fromLVColIdx (frozen i) (toLVColIdx i) = i] holds exactly when every
    visible column that precedes [i] in logical order lies in the pane of
    [i]. *)
Theorem fromLVColIdx_toLVColIdx items (i : nat) c :
  Z.of_nat (length items) <= max_int32 ->
  items !! i = Some c -> c.(visible) = true ->
  toLVColIdx items (Z.of_nat i) = visibleRank (take i items) /\
  (fromLVColIdx items c.(frozen) (toLVColIdx items (Z.of_nat i)) = Z.of_nat i
   <->
   forall (j : nat) c', (j < i)%nat -> items !! j = Some c' ->
                        c'.(visible) = true -> c'.(frozen) = c.(frozen)).
Proof.
  intros Hlen Hi Hv. split; [by eapply toLVColIdx_visible|].
  rewrite (toLVColIdx_visible items i c) by done.
  pose proof (lookup_lt_Some _ _ _ Hi) as Hlt.
  split.
  - intros Hback j c' Hj Hc' Hv'.
    destruct (fromLVColIdx_loop_found (frozen c) (visibleRank (take i items))
                items 0 0) as (pre & c0 & post & Hitems & Hres & _ & _ & Hrank).
    { lia. }
    { lia. }
    { pose proof (paneRank_range (frozen c) items).
      pose proof (visibleRank_range items). lia. }
    { fold (fromLVColIdx items (frozen c) (visibleRank (take i items))).
      rewrite Hback. lia. }
    fold (fromLVColIdx items (frozen c) (visibleRank (take i items))) in Hres.
    assert (Hpre : pre = take i items).
    { rewrite Hitems, take_app_length'; [done|]. lia. }
    subst pre.
    assert (Hall : Forall (fun c' => visible c' = true -> frozen c' = frozen c)
                          (take i items)).
    { apply paneRank_same_pane_inv. lia. }
    rewrite Forall_lookup in Hall. apply (Hall j c'); [|done].
    apply lookup_take_Some. by split.
  - intros Hpane.
    rewrite <- (paneRank_same_pane (frozen c)).
    + by apply fromLVColIdx_paneRank.
    + apply Forall_lookup. intros j c' Hj.
      apply lookup_take_Some in Hj as [Hj Hlt']. eauto.
Qed.

Lemma fromLVColIdx_toLVColIdx_witness :
  fromLVColIdx normalThenFrozen false (toLVColIdx normalThenFrozen 0) = 0.
Proof.
  refine (proj2 (proj2 (fromLVColIdx_toLVColIdx normalThenFrozen 0
           (mkColumn "a" EmptyString 100 false true 0 EmptyString)
           _ eq_refl eq_refl)) _).
  - vm_compute. discriminate.
  - intros j c' Hj. lia.
Defined.

End ColumnIndexFacts.

(** ** Steps that notify nobody *)

Section Silence.

Variable env : Env.

Lemma notifications_app h1 h2 :
  notifications (h1 ++ h2) = notifications h1 ++ notifications h2.
Proof. apply List.filter_app. Qed.

Lemma silentStep_refl s : silentStep s s.
Proof. split; [done|]. by exists []. Qed.

Lemma silentStep_trans s1 s2 s3 :
  silentStep s1 s2 -> silentStep s2 s3 -> silentStep s1 s3.
Proof.
  intros [Ht1 (h1 & Hh1 & Hn1)] [Ht2 (h2 & Hh2 & Hn2)].
  split; [congruence|]. exists (h2 ++ h1). split.
  - rewrite Hh2, Hh1. by rewrite app_assoc.
  - by rewrite notifications_app, Hn1, Hn2.
Qed.


Lemma silent_ret {A} (a : A) : silent (ret a).
Proof. intros s. apply silentStep_refl. Qed.

Lemma silent_get {A} (f : TableView -> A) : silent (get f).
Proof. intros s. apply silentStep_refl. Qed.

Lemma silent_bind {A B} (c : M A) (k : A -> M B) :
  silent c -> (forall a, silent (k a)) -> silent (bind c k).
Proof.
  intros Hc Hk s. unfold bind. specialize (Hc s).
  destruct (c s) as [a s1]. eapply silentStep_trans; [exact Hc|apply Hk].
Qed.

Lemma silent_orReturn c k : silent c -> silent k -> silent (orReturn c k).
Proof.
  intros Hc Hk. apply silent_bind; [done|].
  intros [e|]; [apply silent_ret | done].
Qed.

Lemma silent_perform {A} (c : Call) (ans : History -> A) :
  isNotification c = false -> silent (perform c ans).
Proof.
  intros Hc s. split; [done|]. exists [c]. split; [done|].
  unfold notifications. simpl. by rewrite Hc.
Qed.

Lemma silent_SendMessage hwnd m : silent (SendMessage env hwnd m).
Proof. by apply silent_perform. Qed.

Lemma silent_sendOrFail hwnd m msg : silent (sendOrFail env hwnd m msg).
Proof.
  apply silent_bind; [apply silent_SendMessage | intros; apply silent_ret].
Qed.



Lemma silent_MultiSelection : silent (MultiSelection env).
Proof.
  apply silent_bind; [by apply silent_perform | intros; apply silent_ret].
Qed.

Lemma silent_nextSelected n j : silent (nextSelected env n j).
Proof.
  revert j. induction n as [|n IH]; intros j; simpl; [apply silent_ret|].
  apply silent_bind; [apply silent_SendMessage|]. intros r.
  apply silent_bind; [apply IH | intros; apply silent_ret].
Qed.

Lemma silent_readSelectedIndexes : silent (readSelectedIndexes env).
Proof.
  apply silent_bind; [apply silent_SendMessage|].
  intros r. apply silent_nextSelected.
Qed.


Lemma silent_setItemCount : silent (setItemCount env).
Proof.
  apply silent_bind; [apply silent_get|]. intros m.
  apply silent_bind.
  - destruct m; [by apply silent_perform | apply silent_ret].
  - intros count.
    repeat (apply silent_orReturn; [apply silent_sendOrFail|]).
    apply silent_ret.
Qed.

(** [publishSelectedIndexesChanged] makes exactly the one call
    [selNotification]. *)
Lemma publishSelectedIndexesChanged_run s :
  publishSelectedIndexesChanged env s
  = (tt, mkSt (tv s) (selNotification (tv s) :: hist s)).
Proof.
  unfold publishSelectedIndexesChanged, selNotification, bind, get.
  destruct (itemStateChangedEventDelay (tv s) >? 0); reflexivity.
Qed.



End Silence.

(** ** The selection *)

Section Selection.

Variable env : Env.





(** What [updateSelectedIndexes] does, by the selection it reads. *)
Lemma updateSelectedIndexes_run s :
  updateSelectedIndexes env s
  = let (indexes, s1) := readSelectedIndexes env s in
    if selectionChanged indexes (selectedIndexes (tv s1)) then
      (tt, mkSt (set_selectedIndexes indexes (tv s1))
                (selNotification (tv s1) :: hist s1))
    else (tt, s1).
Proof.
  unfold updateSelectedIndexes, bind at 1.
  destruct (readSelectedIndexes env s) as [indexes s1].
  unfold bind, get, modify. simpl.
  destruct (selectionChanged indexes (selectedIndexes (tv s1))); [|done].
  by rewrite publishSelectedIndexesChanged_run.
Qed.


End Selection.

Section SetSelection.

Variable env : Env.

Lemma orReturn_run c k s :
  orReturn c k s
  = match c s with
    | (Some e, s1) => (Some e, s1)
    | (None, s1) => k s1
    end.
Proof. unfold orReturn, bind. by destruct (c s) as [[e|] s1]. Qed.




End SetSelection.

(** ** Updating a row *)

Section Update.

Variable env : Env.

Lemma sendOrFail_no_model_error hwnd m msg s :
  ~ isModelError (sendOrFail env hwnd m msg s).1.
Proof.
  unfold sendOrFail, bind, SendMessage, perform, ret. cbn [fst].
  intros [code H]. by destruct (_ =? FALSE).
Qed.

Lemma Invalidate_no_model_error s : ~ isModelError (Invalidate env s).1.
Proof.
  unfold Invalidate, bind, perform, ret. cbn [fst].
  intros [code H]. by destruct (base_Invalidate env _).
Qed.

(** C9: with a model that is a [Sorter], [UpdateItem] asks it for its
    sorted column and order and sorts by them; an error of that [Sort] is
    what [UpdateItem] returns, as it is.  If the [Sort] succeeds, or the
    model is no [Sorter] (or there is no model), what [UpdateItem] returns
    is no error of the model. *)
Theorem UpdateItem_returns_sort_error index s :
  match (theSorter s).1 with
  | Some sorter =>
      let col := sorter.(SortedColumn) (hist s) in
      let order := sorter.(sorter_SortOrder) (cSortedColumn :: hist s) in
      match sorter.(Sort) (cSortOrder :: cSortedColumn :: hist s) col order with
      | Some code => UpdateItem env index s
                     = (Some (modelError code),
                        mkSt (tv s) (cSort col order :: cSortOrder
                                       :: cSortedColumn :: hist s))
      | None => ~ isModelError (UpdateItem env index s).1
      end
  | None => ~ isModelError (UpdateItem env index s).1
  end.
Proof.
  unfold UpdateItem.
  assert (Hs : theSorter s
               = (match model (tv s) with
                  | Some mdl => asSorter mdl
                  | None => None
                  end, s)) by reflexivity.
  unfold bind. rewrite Hs. cbn [fst].
  destruct (match model (tv s) with
            | Some mdl => asSorter mdl
            | None => None
            end) as [sorter|].
  - unfold perform. cbn [fst snd tv hist].
    destruct (Sort sorter _ _ _) as [code|]; [reflexivity|].
    apply Invalidate_no_model_error.
  - rewrite orReturn_run.
    pose proof (sendOrFail_no_model_error hwndFrozen
                  (LVM_UPDATE (GoInt.uintptr index)) "LVM_UPDATE" s) as H1.
    destruct (sendOrFail env hwndFrozen _ _ s) as [[e|] s1]; [exact H1|].
    rewrite orReturn_run.
    pose proof (sendOrFail_no_model_error hwndNormal
                  (LVM_UPDATE (GoInt.uintptr index)) "LVM_UPDATE" s1) as H2.
    destruct (sendOrFail env hwndNormal _ _ s1) as [[e|] s2]; [exact H2|].
    intros [code H]. discriminate.
Qed.

End Update.

(** ** The current index *)

Section Current.

Variable env : Env.
Hypothesis Haccepts : accepts env.

Lemma published_app e h1 h2 :
  published e (h1 ++ h2) = (published e h1 + published e h2)%nat.
Proof. unfold published. by rewrite List.filter_app, length_app. Qed.

Lemma published_not_notified e h : notifications h = [] -> published e h = 0%nat.
Proof.
  unfold notifications, published.
  induction h as [|c h IH]; simpl; [done|].
  destruct (isNotification c) eqn:Hc; [done|].
  intros Hn. replace (isPublish e c) with false; [by apply IH|].
  destruct c; try done.
Qed.

Lemma silentStep_published e s s' :
  silentStep s s' -> published e (hist s') = published e (hist s).
Proof.
  intros [_ (h' & -> & Hn)].
  by rewrite published_app, (published_not_notified e h' Hn).
Qed.

Lemma sendOrFail_accepted hwnd m msg s :
  isItemRequest m = true ->
  sendOrFail env hwnd m msg s
  = (None, mkSt (tv s) (cSendMessage hwnd m :: hist s)).
Proof.
  intros Hm. unfold sendOrFail, bind, SendMessage, perform, ret.
  pose proof (Haccepts (hist s) hwnd m Hm) as Hne.
  apply Z.eqb_neq in Hne. by rewrite Hne.
Qed.

(** A request that the list views carry out lets the function go on. *)
Lemma attempt_accepted hwnd m msg k s :
  isItemRequest m = true ->
  orReturn (sendOrFail env hwnd m msg) k s
  = k (mkSt (tv s) (cSendMessage hwnd m :: hist s)).
Proof. intros Hm. by rewrite orReturn_run, sendOrFail_accepted. Qed.

Lemma set_selectedIndexes_same t : set_selectedIndexes (selectedIndexes t) t = t.
Proof. by destruct t. Qed.

(** [updateSelectedIndexes] touches the cache alone and publishes no
    current-index change. *)
Lemma updateSelectedIndexes_effect s :
  (exists l, tv (updateSelectedIndexes env s).2 = set_selectedIndexes l (tv s)) /\
  published CurrentIndexChanged (hist (updateSelectedIndexes env s).2)
  = published CurrentIndexChanged (hist s).
Proof.
  rewrite updateSelectedIndexes_run.
  pose proof (silent_readSelectedIndexes env s) as Hs.
  destruct (readSelectedIndexes env s) as [indexes s1]. cbn [snd] in Hs.
  pose proof (silentStep_published CurrentIndexChanged _ _ Hs) as Hp.
  destruct Hs as [Ht _].
  destruct (selectionChanged indexes _); cbn [snd tv hist].
  - split; [exists indexes; by rewrite Ht|].
    rewrite <- Hp. unfold published, selNotification. simpl.
    by destruct (_ >? 0).
  - split; [|done]. exists (selectedIndexes (tv s)).
    by rewrite Ht, set_selectedIndexes_same.
Qed.

Lemma SetCurrentIndex_body_run index s :
  exists l s',
    SetCurrentIndex_body env index s = (None, s') /\
    tv s' = set_selectedIndexes l (set_currentIndex index (tv s)) /\
    published CurrentIndexChanged (hist s')
    = (publishedBy index (tv s) + published CurrentIndexChanged (hist s))%nat /\
    ((forall st, (MultiSelection env st).1 = false) ->
     l = selectedIndexes (tv s)).
Proof.
  unfold SetCurrentIndex_body. unfold bind at 1.
  pose proof (silent_MultiSelection env s) as H0.
  destruct (MultiSelection env s) as [multi s0]. cbn [snd] in H0.
  (* clearing every item, in multi-selection mode *)
  assert (exists s1, silentStep s s1 /\ forall k,
            orReturn (if multi then
                        attempt setItemState env hwndFrozen allItems 0 in
                        setItemState env hwndNormal allItems 0
                      else ret None) k s0 = k s1) as (s1 & H1 & ->).
  { destruct multi.
    - eexists. split; [|intros k; rewrite orReturn_run].
      2:{ unfold setItemState at 1. rewrite attempt_accepted by done.
          unfold setItemState. rewrite sendOrFail_accepted by done.
          reflexivity. }
      eapply silentStep_trans; [exact H0|].
      destruct H0 as [Ht0 _]. split; [done|].
      eexists [_; _]. split; [reflexivity|done].
    - exists s0. split; [done|]. intros k. by rewrite orReturn_run. }
  unfold setItemState at 1. rewrite attempt_accepted by done.
  unfold setItemState at 1. rewrite attempt_accepted by done.
  cbn [tv hist].
  set (s2 := {| tv := tv s1; hist := _ :: _ :: hist s1 |}).
  assert (H2 : silentStep s s2).
  { eapply silentStep_trans; [exact H1|]. split; [done|].
    eexists [_; _]. split; [reflexivity|done]. }
  clearbody s2.
  (* scrolling the item into view *)
  assert (exists s3, silentStep s s3 /\ forall k,
            orReturn (if negb (index =? -1) then
                        attempt ensureVisible env hwndFrozen index in
                        attempt ensureVisible env hwndFrozen index in
                        attempt ensureVisible env hwndNormal index in
                        ensureVisible env hwndNormal index
                      else ret None) k s2 = k s3) as (s3 & H3 & ->).
  { destruct (negb (index =? -1)).
    - eexists. split; [|intros k; rewrite orReturn_run].
      2:{ unfold ensureVisible.
          rewrite !attempt_accepted by done.
          rewrite sendOrFail_accepted by done. reflexivity. }
      eapply silentStep_trans; [exact H2|]. split; [done|].
      eexists [_; _; _; _]. split; [reflexivity|done].
    - exists s2. split; [done|]. intros k. by rewrite orReturn_run. }
  (* the bookkeeping *)
  pose proof (silentStep_published CurrentIndexChanged _ _ H3) as Hp3.
  destruct H3 as [Ht3 _].
  unfold bind at 1, modify at 1. unfold bind at 1, get at 1.
  cbn [tv hist].
  replace (itemStateChangedEventDelay (set_currentIndex index (tv s3)))
    with (itemStateChangedEventDelay (tv s)) by (by rewrite Ht3).
  unfold bind at 1.
  set (s4 := ((if (index =? -1) || (itemStateChangedEventDelay (tv s) =? 0)
               then Publish CurrentIndexChanged else ret tt)
                {| tv := set_currentIndex index (tv s3); hist := hist s3 |})).
  assert (H4 : tv s4.2 = set_currentIndex index (tv s) /\
               published CurrentIndexChanged (hist s4.2)
               = (publishedBy index (tv s)
                  + published CurrentIndexChanged (hist s))%nat).
  { subst s4. unfold publishedBy.
    destruct ((index =? -1) || (itemStateChangedEventDelay (tv s) =? 0));
      cbn [Publish perform ret snd tv hist];
      rewrite Ht3, <- Hp3; by split. }
  destruct s4 as [[] s4']. cbn [snd] in H4. destruct H4 as [Ht4 Hp4].
  unfold bind at 1.
  pose proof (silent_MultiSelection env s4') as H5.
  pose proof (updateSelectedIndexes_effect) as Hupd.
  destruct (MultiSelection env s4') as [multi' s5] eqn:HM. cbn [snd] in H5.
  pose proof (silentStep_published CurrentIndexChanged _ _ H5) as Hp5.
  destruct H5 as [Ht5 _].
  destruct multi'.
  - unfold bind, ret. specialize (Hupd s5).
    destruct (updateSelectedIndexes env s5) as [[] s6]. cbn [snd] in Hupd.
    destruct Hupd as [[l Hl] Hp6].
    exists l, s6. split; [done|]. split; [by rewrite Hl, Ht5, Ht4|].
    split; [by rewrite Hp6, Hp5, Hp4|].
    intros Hsingle. specialize (Hsingle s4'). rewrite HM in Hsingle. done.
  - unfold bind, ret. exists (selectedIndexes (tv s)), s5.
    split; [done|]. split.
    + rewrite Ht5, Ht4. by destruct (tv s).
    + split; [by rewrite Hp5, Hp4|done].
Qed.

(** A call of [SetCurrentIndex] that is not nested: it returns no
    error, the current index is the one given, the cache of selected
    indexes is the only other field that may differ, and the guard is
    down again. *)
Lemma SetCurrentIndex_run index s :
  inSetCurrentIndex (tv s) = false ->
  exists l s',
    SetCurrentIndex env index s = (None, s') /\
    tv s' = set_selectedIndexes l (set_currentIndex index (tv s)) /\
    published CurrentIndexChanged (hist s')
    = (publishedBy index (tv s) + published CurrentIndexChanged (hist s))%nat /\
    ((forall st, (MultiSelection env st).1 = false) ->
     l = selectedIndexes (tv s)).
Proof.
  intros Hfree. unfold SetCurrentIndex, bind at 1, get at 1.
  rewrite Hfree. unfold bind at 1, modify at 1. unfold bind at 1.
  destruct (SetCurrentIndex_body_run index
              {| tv := set_inSetCurrentIndex true (tv s); hist := hist s |})
    as (l & s' & -> & Ht & Hp & Hl).
  unfold bind, modify, ret. cbn [tv hist] in *.
  exists l. eexists. split; [reflexivity|]. cbn [tv hist].
  split; [|split; [exact Hp|exact Hl]].
  rewrite Ht. destruct (tv s). simpl in *. by subst.
Qed.

End Current.

(** ** Rows inserted, rows removed *)

Section Rows.

Variable env : Env.

(** The rows-inserted handler, by the test it makes. *)
Lemma rowsInsertedHandler_run from to s :
  accepts env -> inSetCurrentIndex (tv s) = false ->
  currentIndex (tv (rowsInsertedHandler env from to s).2)
  = if from <=? currentIndex (tv s)
    then GoInt.int (currentIndex (tv s) + (1 + to - from))
    else currentIndex (tv s).
Proof.
  intros Hacc Hfree.
  unfold rowsInsertedHandler, bind at 1, get at 1. unfold bind at 1.
  pose proof (silent_setItemCount env s) as [Ht _].
  destruct (setItemCount env s) as [r s1]. cbn [snd tv] in *.
  destruct (from <=? currentIndex (tv s)); [|by cbn; rewrite Ht].
  rewrite GoIntFacts.add_span. unfold bind at 1.
  destruct (SetCurrentIndex_run env Hacc
              (GoInt.int (currentIndex (tv s) + (1 + to - from))) s1)
    as (l & s' & -> & Ht' & _); [by rewrite Ht|].
  cbn [ret snd]. by rewrite Ht'.
Qed.

(** The rows-removed handler, by the tests it makes. *)
Lemma rowsRemovedHandler_run from to s :
  accepts env -> inSetCurrentIndex (tv s) = false ->
  currentIndex (tv (rowsRemovedHandler env from to s).2)
  = if (from <=? currentIndex (tv s)) && (currentIndex (tv s) <=? to) then -1
    else if from <? currentIndex (tv s)
         then GoInt.int (currentIndex (tv s) - (1 + to - from))
         else currentIndex (tv s).
Proof.
  intros Hacc Hfree.
  unfold rowsRemovedHandler, bind at 1, get at 1. unfold bind at 1.
  pose proof (silent_setItemCount env s) as [Ht _].
  destruct (setItemCount env s) as [r s1]. cbn [snd tv] in *.
  rewrite GoIntFacts.sub_span.
  set (index := if (from <=? currentIndex (tv s)) && (currentIndex (tv s) <=? to)
                then -1
                else if from <? currentIndex (tv s)
                     then GoInt.int (currentIndex (tv s) - (1 + to - from))
                     else currentIndex (tv s)).
  destruct (index =? currentIndex (tv s)) eqn:Hsame; cbn [negb].
  - apply Z.eqb_eq in Hsame. cbn [ret snd]. by rewrite Ht.
  - unfold bind at 1.
    destruct (SetCurrentIndex_run env Hacc index s1)
      as (l & s' & -> & Ht' & _); [by rewrite Ht|].
    cbn [ret snd]. by rewrite Ht'.
Qed.

(** C3: with list views that carry out the widget's requests and no
    [SetCurrentIndex] under way, the rows-inserted handler for the span
    [from..to] moves a current index [i] with [from <= i] to
    [i + (1 + to - from)] (computed on [int], so exactly that number
    whenever it is an [int]) and leaves a current index [i < from] where
    it is. *)
Theorem rowsInsertedHandler_currentIndex from to s :
  accepts env -> countsItems env -> inSetCurrentIndex (tv s) = false ->
  let i := currentIndex (tv s) in
  let i' := currentIndex (tv (rowsInsertedHandler env from to s).2) in
  (from <= i ->
   i' = GoInt.int (i + (1 + to - from)) /\
   (GoInt.is_int (i + (1 + to - from)) -> i' = i + (1 + to - from))) /\
  (i < from -> i' = i).
Proof.
  intros Hacc _ Hfree. cbv zeta.
  rewrite (rowsInsertedHandler_run from to s Hacc Hfree). split.
  - intros Hle. apply Z.leb_le in Hle. rewrite Hle. split; [done|].
    apply GoIntFacts.int_small.
  - intros Hlt. apply Z.leb_gt in Hlt. by rewrite Hlt.
Qed.

(** C2: with list views that carry out the widget's requests and no
    [SetCurrentIndex] under way, the rows-removed handler for the span
    [from..to] sets a current index [i] with [from <= i <= to] to [-1],
    moves one with [from < i] and [to < i] back to [i - (1 + to - from)]
    (computed on [int], so exactly that number whenever it is an [int])
    and leaves any other current index where it is. *)
Theorem rowsRemovedHandler_currentIndex from to s :
  accepts env -> countsItems env -> inSetCurrentIndex (tv s) = false ->
  let i := currentIndex (tv s) in
  let i' := currentIndex (tv (rowsRemovedHandler env from to s).2) in
  (from <= i <= to -> i' = -1) /\
  (from < i -> to < i ->
   i' = GoInt.int (i - (1 + to - from)) /\
   (GoInt.is_int (i - (1 + to - from)) -> i' = i - (1 + to - from))) /\
  (~ from <= i <= to -> ~ (from < i /\ to < i) -> i' = i).
Proof.
  intros Hacc _ Hfree. cbv zeta.
  rewrite (rowsRemovedHandler_run from to s Hacc Hfree).
  split; [|split].
  - intros [H1 H2]. apply Z.leb_le in H1, H2. by rewrite H1, H2.
  - intros H1 H2.
    replace ((from <=? currentIndex (tv s)) && (currentIndex (tv s) <=? to))
      with false by (symmetry; apply andb_false_iff; right;
                     apply Z.leb_gt; lia).
    apply Z.ltb_lt in H1. rewrite H1. split; [done|].
    apply GoIntFacts.int_small.
  - intros Hout Hnot.
    destruct ((from <=? currentIndex (tv s)) && (currentIndex (tv s) <=? to))
      eqn:Hin.
    + apply andb_prop in Hin as [H1 H2]. apply Z.leb_le in H1, H2. lia.
    + destruct (from <? currentIndex (tv s)) eqn:Hlt; [|done].
      apply Z.ltb_lt in Hlt. lia.
Qed.


End Rows.

(** ** The example environment at work *)

Lemma rowsInsertedHandler_currentIndex_witness :
  currentIndex (tv (rowsInsertedHandler calmEnv 0 1
                      (mkSt (set_currentIndex 2 idleView) [])).2) = 4 /\
  currentIndex (tv (rowsInsertedHandler calmEnv 3 5
                      (mkSt (set_currentIndex 2 idleView) [])).2) = 2.
Proof.
  split.
  - refine (proj2 (proj1 (rowsInsertedHandler_currentIndex calmEnv 0 1
                            (mkSt (set_currentIndex 2 idleView) []) _ _ eq_refl)
                         _) _).
    + intros h hwnd m Hm. by destruct m.
    + intros h. by vm_compute.
    + simpl. lia.
    + by vm_compute.
  - refine (proj2 (rowsInsertedHandler_currentIndex calmEnv 3 5
                     (mkSt (set_currentIndex 2 idleView) []) _ _ eq_refl) _).
    + intros h hwnd m Hm. by destruct m.
    + intros h. by vm_compute.
    + simpl. lia.
Defined.

Lemma rowsRemovedHandler_currentIndex_witness :
  currentIndex (tv (rowsRemovedHandler calmEnv 1 3
                      (mkSt (set_currentIndex 2 idleView) [])).2) = -1 /\
  currentIndex (tv (rowsRemovedHandler calmEnv 0 1
                      (mkSt (set_currentIndex 5 idleView) [])).2) = 3.
Proof.
  split.
  - refine (proj1 (rowsRemovedHandler_currentIndex calmEnv 1 3
                     (mkSt (set_currentIndex 2 idleView) []) _ _ eq_refl) _).
    + intros h hwnd m Hm. by destruct m.
    + intros h. by vm_compute.
    + simpl. lia.
  - refine (proj2 (proj1 (proj2 (rowsRemovedHandler_currentIndex calmEnv 0 1
                                   (mkSt (set_currentIndex 5 idleView) [])
                                   _ _ eq_refl)) _ _) _).
    + intros h hwnd m Hm. by destruct m.
    + intros h. by vm_compute.
    + simpl. lia.
    + simpl. lia.
    + by vm_compute.
Defined.




(** ** The sort column after a restore *)

(** C4, the code at a failing input: the saved sort column ["a"] is found
    at index 0, the model does not sort by column 0 but sorts by columns 1
    and 2, and [RestoreState] ends with column 2 as the sorted column,
    the last sortable one and not the first, and sorts the model by it. *)
Theorem RestoreState_picks_last_sortable :
  let r := RestoreState savedEnv (mkSt sortedView []) in
  r.1 = None /\
  sortedColumnIndex (tv r.2) = 2 /\
  head (hist r.2) = Some (cSetSuspended false) /\
  hist r.2 !! 1%nat = Some (cSort 2 SortAscending).
Proof. vm_compute. repeat split. Qed.

Lemma pickSortable_cons (s : Sorter) c cols i st :
  pickSortable s (c :: cols) i st
  = pickSortable s cols (i + 1)
      (mkSt (if s.(ColumnSortable) (hist st) i
             then set_sortedColumnIndex i (tv st) else tv st)
            (cColumnSortable i :: hist st)).
Proof.
  cbn [pickSortable]. unfold bind, perform. cbn [hist tv].
  by destruct (ColumnSortable s (hist st) i).
Qed.

(** Whatever the columns and the model, the fallback loop leaves the
    highest sortable index of the persisted columns selected (for a model
    whose [ColumnSortable] does not depend on the calls made), and the
    column it started with if none is sortable. *)
Lemma pickSortable_last (s : Sorter) (sortable : Z -> bool) cols i st :
  (forall h col, s.(ColumnSortable) h col = sortable col) ->
  let r := sortedColumnIndex (tv (pickSortable s cols i st).2) in
  (r = sortedColumnIndex (tv st) /\
   forall j, i <= j < i + Z.of_nat (length cols) -> sortable j = false) \/
  (i <= r < i + Z.of_nat (length cols) /\ sortable r = true /\
   forall j, r < j < i + Z.of_nat (length cols) -> sortable j = false).
Proof.
  intros Hpure. cbv zeta. revert i st.
  induction cols as [|c cols IH]; intros i st.
  - left. split; [done|]. intros j Hj. simpl in Hj. lia.
  - rewrite pickSortable_cons, Hpure. cbn [length]. rewrite Nat2Z.inj_succ.
    destruct (sortable i) eqn:Hi.
    + destruct (IH (i + 1) {| tv := set_sortedColumnIndex i (tv st);
                              hist := cColumnSortable i :: hist st |})
        as [[Hr Hnone]|(Hr & Hs & Hlast)].
      * right. rewrite Hr. cbn. split; [lia|]. split; [done|].
        intros j Hj. apply Hnone. lia.
      * right. split; [lia|]. split; [done|].
        intros j Hj. apply Hlast. lia.
    + destruct (IH (i + 1) {| tv := tv st;
                              hist := cColumnSortable i :: hist st |})
        as [[Hr Hnone]|(Hr & Hs & Hlast)].
      * left. rewrite Hr. cbn. split; [done|].
        intros j Hj. destruct (decide (j = i)) as [->|]; [done|].
        apply Hnone. lia.
      * right. split; [lia|]. split; [done|].
        intros j Hj. apply Hlast. lia.
Qed.

(** ** Cell text *)

Section CellTextFacts.

Context {float32 float64 Time Rat Other : Type}.
Variable float64_of_float32 : float32 -> float64.
Variable FormatFloatGrouped : float64 -> Z -> string.
Variable formatBigRatGrouped : Rat -> Z -> string.
Variable Year : Time -> Z.
Variable TimeFormat : Time -> string -> string.
Variable Sprintf : string -> @CellValue float32 float64 Time Rat Other -> string.

Let text := cellText float64_of_float32 FormatFloatGrouped
              formatBigRatGrouped Year TimeFormat Sprintf.

(** C6: the text of a cell by the type of its value.  Floats of either
    width and rationals go through the grouping formatters with the
    column's precision, 2 standing in for a precision of 0; a time goes
    through its [Format] with the column's format if its year is past
    1601 and is empty text otherwise; [true] is the check mark (the bytes
    E2 9C 94) and [false] empty text; a value of any other type but
    string goes through [Sprintf] with the column's format. *)
Theorem cellText_by_type (col : TableViewColumn) :
  (forall f, text col (VFloat64 f)
             = FormatFloatGrouped f (effectivePrecision col)) /\
  (forall f, text col (VFloat32 f)
             = FormatFloatGrouped (float64_of_float32 f) (effectivePrecision col)) /\
  (forall q, text col (VBigRat q)
             = formatBigRatGrouped q (effectivePrecision col)) /\
  (col.(precision) = 0 -> effectivePrecision col = 2) /\
  (col.(precision) <> 0 -> effectivePrecision col = col.(precision)) /\
  (forall t, 1601 < Year t -> text col (VTime t) = TimeFormat t col.(format)) /\
  (forall t, Year t <= 1601 -> text col (VTime t) = EmptyString) /\
  text col (VBool true) = checkmark /\
  text col (VBool false) = EmptyString /\
  (forall o, text col (VOther o) = Sprintf col.(format) (VOther o)) /\
  String.list_ascii_of_string checkmark
  = [Ascii.ascii_of_N 226; Ascii.ascii_of_N 156; Ascii.ascii_of_N 148].
Proof.
  unfold text, effectivePrecision. repeat split; try reflexivity.
  - intros ->. reflexivity.
  - intros Hp. apply Z.eqb_neq in Hp. by rewrite Hp.
  - intros t Ht. cbn. apply Z.gtb_lt in Ht. by rewrite Ht.
  - intros t Ht. cbn.
    destruct (Year t >? 1601) eqn:E; [|done]. apply Z.gtb_lt in E. lia.
Qed.

(** The sub-item that a pane shows at the pane rank of a visible column
    gets the text of that column for the model's value there; a sub-item
    that maps to no column gets none. *)
Lemma dispInfoText_visible items (i : nat) c value :
  Z.of_nat (length items) <= GoInt.max_int32 ->
  items !! i = Some c -> c.(visible) = true ->
  dispInfoText float64_of_float32 FormatFloatGrouped formatBigRatGrouped
    Year TimeFormat Sprintf items c.(frozen)
    (ColumnIndex.paneRank c.(frozen) (take i items)) value
  = Some (text c (value (Z.of_nat i))).
Proof.
  intros Hlen Hi Hv. unfold dispInfoText.
  rewrite ColumnIndexFacts.fromLVColIdx_paneRank by done.
  replace (Z.of_nat i =? -1) with false by (symmetry; apply Z.eqb_neq; lia).
  by rewrite Nat2Z.id, Hi.
Qed.

End CellTextFacts.

(** ** The display order after a restore *)

Section DisplayOrder.

Variable env : Env.

(** No column of the registry bears the name: [name2tvc] has no entry. *)
Lemma name2tvc_from_None items p m n :
  name2tvc_from items p m !! n = None
  <-> m !! n = None /\ forall tvc, tvc ∈ items -> tvc.(name) <> n.
Proof.
  revert p m. induction items as [|c items IH]; intros p m; simpl.
  - split; [|by intros [? _]]. intros H. split; [done|].
    intros tvc Hin. by apply elem_of_nil in Hin.
  - rewrite IH. split.
    + intros [Hm Hrest].
      destruct (decide (name c = n)) as [<-|Hne].
      * by rewrite lookup_insert_eq in Hm.
      * rewrite lookup_insert_ne in Hm by done. split; [done|].
        intros tvc Hin. apply elem_of_cons in Hin as [->|Hin]; eauto.
    + intros [Hm Hall]. split.
      * rewrite lookup_insert_ne; [done|]. apply Hall. by left.
      * intros tvc Hin. apply Hall. by right.
Qed.

Lemma name2tvc_of_None items n :
  name2tvc_of items !! n = None
  <-> forall tvc, tvc ∈ items -> tvc.(name) <> n.
Proof.
  unfold name2tvc_of. rewrite name2tvc_from_None, lookup_empty. naive_solver.
Qed.

(** A persisted column without a live column of its name drops out of
    the loop over [tvs.Columns]. *)
Lemma restoreColumns_skips name2tvc displayOrder before c after s :
  name2tvc !! c.(Name) = None ->
  restoreColumns env name2tvc displayOrder (before ++ c :: after) s
  = restoreColumns env name2tvc displayOrder (before ++ after) s.
Proof.
  intros Hc. revert s.
  induction before as [|b before IH]; intros s; cbn [app restoreColumns].
  - rewrite Hc. by rewrite orReturn_run.
  - rewrite !orReturn_run.
    match goal with
    | |- match ?x with _ => _ end = _ => destruct x as [[e|] s1]
    end; [done | apply IH].
Qed.

Lemma keepKnown_run name2tvc items names known displayOrder :
  keepKnown name2tvc items names known displayOrder
  = (list_to_set names ∪ known,
     displayOrder ++ List.filter (liveVisible name2tvc items) names).
Proof.
  revert known displayOrder.
  induction names as [|n names IH]; intros known displayOrder; simpl.
  - f_equal; [set_solver | by rewrite app_nil_r].
  - rewrite IH. f_equal; [set_solver|].
    destruct (liveVisible name2tvc items n); [|done].
    by rewrite <- app_assoc.
Qed.

Lemma appendUnknown_run cols known displayOrder :
  appendUnknown cols known displayOrder
  = displayOrder ++ (name <$> filter (fun tvc => tvc.(name) ∉ known) cols).
Proof.
  revert displayOrder.
  induction cols as [|c cols IH]; intros displayOrder; simpl.
  - by rewrite app_nil_r.
  - rewrite IH, filter_cons. case_bool_decide as Hk.
    + by rewrite decide_False by (intros Hn; by apply Hn).
    + rewrite decide_True by done. by rewrite <- app_assoc.
Qed.

Lemma reconcileDisplayOrder_run name2tvc items persisted :
  reconcileDisplayOrder name2tvc items persisted
  = List.filter (liveVisible name2tvc items) persisted
    ++ unlisted items persisted.
Proof.
  unfold reconcileDisplayOrder, unlisted.
  rewrite keepKnown_run, appendUnknown_run. cbn [app]. f_equal. f_equal.
  apply list_filter_iff. intros tvc. set_solver.
Qed.

(** C7: a persisted column state whose name no live column bears is
    passed over by the loop that applies the states (the restore goes on
    as if it were not there, so it gives rise to no error), and such a
    name of the persisted display order is left out of the reconciled
    order.  The reconciled order is the persisted names kept, in their
    order, each one the name of a live visible column, followed by the
    names of all live visible columns that the persisted order does not
    list, in registry order. *)
Theorem RestoreState_reconciles_display_order
        items0 items (tvs : tableViewState) :
  let name2tvc := name2tvc_of items0 in
  let persisted := tvs.(ColumnDisplayOrder) in
  let displayOrder := reconcileDisplayOrder name2tvc items persisted in
  (forall before c after s,
      (forall tvc, tvc ∈ items0 -> tvc.(name) <> c.(Name)) ->
      restoreColumns env name2tvc persisted (before ++ c :: after) s
      = restoreColumns env name2tvc persisted (before ++ after) s) /\
  (forall n, (forall tvc, tvc ∈ items0 -> tvc.(name) <> n) ->
             n ∈ persisted -> n ∉ displayOrder) /\
  (exists kept,
      displayOrder = kept ++ unlisted items persisted /\
      kept = List.filter (liveVisible name2tvc items) persisted /\
      forall n, n ∈ kept -> n ∈ persisted) /\
  (forall tvc, tvc ∈ items -> tvc.(visible) = true ->
               tvc.(name) ∉ persisted ->
               tvc.(name) ∈ unlisted items persisted) /\
  unlisted items persisted
  = name <$> filter (fun tvc => tvc.(visible) = true /\
                                tvc.(name) ∉ persisted) items.
Proof.
  cbv zeta. rewrite reconcileDisplayOrder_run.
  split; [|split; [|split; [|split]]].
  - intros before c after s Hc. apply restoreColumns_skips.
    by apply name2tvc_of_None.
  - intros n Hn Hin Hin'. apply elem_of_app in Hin' as [Hk|Hu].
    + apply list_elem_of_In, List.filter_In in Hk as [_ Hk].
      unfold liveVisible in Hk.
      by rewrite (proj2 (name2tvc_of_None items0 n) Hn) in Hk.
    + unfold unlisted in Hu. apply list_elem_of_fmap in Hu as (tvc & -> & Hu).
      apply list_elem_of_filter in Hu as [Hu _]. done.
  - eexists. split; [reflexivity|]. split; [reflexivity|].
    intros n Hn. apply list_elem_of_In, List.filter_In in Hn as [Hn _].
    by apply list_elem_of_In.
  - intros tvc Hin Hv Hn. unfold unlisted.
    apply list_elem_of_fmap. exists tvc. split; [done|].
    apply list_elem_of_filter. split; [done|].
    apply list_elem_of_filter. by split.
  - unfold unlisted, ColumnIndex.visibleColumns. f_equal.
    rewrite list_filter_filter. apply list_filter_iff. naive_solver.
Qed.

End DisplayOrder.

(** * Further properties *)

(** ** The column mapping *)

Module ColumnMapping.
Import GoInt GoIntFacts ColumnIndex ColumnIndexFacts.

Lemma visibleColumnCount_rank items : visibleColumnCount items = visibleRank items.
Proof.
  induction items as [|c items IH]; [done|].
  rewrite visibleRank_cons. cbn [visibleColumnCount]. by rewrite IH.
Qed.

Lemma visibleFrozenColumnCount_rank items :
  visibleFrozenColumnCount items = paneRank true items.
Proof.
  induction items as [|c items IH]; [done|].
  rewrite paneRank_cons. cbn [visibleFrozenColumnCount]. rewrite IH.
  by destruct (frozen c), (visible c).
Qed.

Lemma visibleRank_split cols :
  visibleRank cols = paneRank true cols + paneRank false cols.
Proof.
  induction cols as [|c cols IH]; [done|].
  rewrite visibleRank_cons, !paneRank_cons, IH.
  destruct (frozen c), (visible c); simpl; lia.
Qed.

Lemma paneCount_rank items f : paneCount items f = paneRank f items.
Proof.
  unfold paneCount.
  rewrite visibleColumnCount_rank, visibleFrozenColumnCount_rank,
    visibleRank_split.
  destruct f; lia.
Qed.

(** X1: The counters of the registry agree with [visibleColumns]: the visible
    count is its length, the frozen count is at most the visible count, and
    that is at most the number of columns. *)
Theorem visible_counts items :
  visibleColumnCount items = Z.of_nat (length (visibleColumns items)) /\
  0 <= visibleFrozenColumnCount items <= visibleColumnCount items /\
  visibleColumnCount items <= Z.of_nat (length items) /\
  visibleFrozenColumnCount items
  = Z.of_nat (length (filter (fun tvc => tvc.(frozen) = true)
                             (visibleColumns items))).
Proof.
  rewrite visibleColumnCount_rank, visibleFrozenColumnCount_rank.
  pose proof (paneRank_range true items).
  pose proof (visibleRank_range items).
  repeat split; try lia.
  unfold paneRank, visibleColumns. rewrite list_filter_filter.
  do 2 f_equal. apply list_filter_iff. naive_solver.
Qed.

Lemma fromLVColIdx_loop_miss f index items i idx :
  0 <= i -> 0 <= idx -> idx + paneRank f items <= max_int32 ->
  fromLVColIdx_loop f index items i idx = -1
  <-> ~ (idx <= index < idx + paneRank f items).
Proof.
  revert i idx.
  induction items as [|x items IH]; intros i idx Hi Hidx Hmax;
    cbn [fromLVColIdx_loop].
  - unfold paneRank. simpl. split; [lia | done].
  - rewrite paneRank_cons in *. pose proof (paneRank_range f items).
    destruct (eqb f (frozen x) && visible x).
    + destruct (idx =? index) eqn:Hhit.
      * apply Z.eqb_eq in Hhit. split; lia.
      * apply Z.eqb_neq in Hhit. rewrite incr32_small by lia.
        rewrite IH by lia. lia.
    + rewrite IH by lia. lia.
Qed.

(** X2: A sub-item index maps to no column exactly when it is not one of
    [0 .. n-1], [n] being the number of visible columns of the pane. *)
Theorem fromLVColIdx_miss items f index :
  Z.of_nat (length items) <= max_int32 ->
  fromLVColIdx items f index = -1 <-> ~ (0 <= index < paneCount items f).
Proof.
  intros Hlen. unfold fromLVColIdx. rewrite paneCount_rank.
  pose proof (paneRank_range f items). pose proof (visibleRank_range items).
  rewrite fromLVColIdx_loop_miss by lia. lia.
Qed.

Lemma fromLVColIdx_miss_witness :
  fromLVColIdx normalThenFrozen true 1 = -1 <->
  ~ (0 <= 1 < paneCount normalThenFrozen true).
Proof.
  apply (fromLVColIdx_miss normalThenFrozen true 1). by vm_compute.
Defined.

Lemma fromLVColIdx_found items f index :
  Z.of_nat (length items) <= max_int32 ->
  fromLVColIdx items f index <> -1 ->
  exists (i : nat) c,
    fromLVColIdx items f index = Z.of_nat i /\
    items !! i = Some c /\ c.(visible) = true /\ c.(frozen) = f /\
    index = paneRank f (take i items).
Proof.
  intros Hlen Hfound.
  pose proof (paneRank_range f items). pose proof (visibleRank_range items).
  destruct (fromLVColIdx_loop_found f index items 0 0)
    as (pre & c & post & -> & Hres & Hv & Hf & Hrank); [lia..|done|].
  exists (length pre), c. unfold fromLVColIdx. rewrite Hres.
  split; [lia|]. split; [by rewrite list_lookup_middle|].
  split; [done|]. split; [done|].
  rewrite take_app_length. lia.
Qed.

(** X3: What [fromLVColIdx] answers is [-1] or the logical index of a visible
    column of the pane asked for, the one that has the given index as its
    rank among the visible columns of that pane. *)
Theorem fromLVColIdx_sound items f index :
  Z.of_nat (length items) <= max_int32 ->
  fromLVColIdx items f index = -1 \/
  exists (i : nat) c,
    fromLVColIdx items f index = Z.of_nat i /\
    items !! i = Some c /\ c.(visible) = true /\ c.(frozen) = f /\
    index = paneRank f (take i items).
Proof.
  intros Hlen.
  destruct (decide (fromLVColIdx items f index = -1)) as [|Hfound]; [by left|].
  right. by apply fromLVColIdx_found.
Qed.

Lemma fromLVColIdx_sound_witness :
  fromLVColIdx normalThenFrozen true 0 = -1 \/
  exists (i : nat) c,
    fromLVColIdx normalThenFrozen true 0 = Z.of_nat i /\
    normalThenFrozen !! i = Some c /\ c.(visible) = true /\
    c.(frozen) = true /\ 0 = paneRank true (take i normalThenFrozen).
Proof.
  apply (fromLVColIdx_sound normalThenFrozen true 0). by vm_compute.
Defined.

(** X4: No column is shown twice: two sub-items that [fromLVColIdx] maps to
    the same column are the same sub-item of the same pane. *)
Theorem fromLVColIdx_injective items f1 index1 f2 index2 :
  Z.of_nat (length items) <= max_int32 ->
  fromLVColIdx items f1 index1 <> -1 ->
  fromLVColIdx items f1 index1 = fromLVColIdx items f2 index2 ->
  f1 = f2 /\ index1 = index2.
Proof.
  intros Hlen Hfound Heq.
  destruct (fromLVColIdx_found items f1 index1 Hlen Hfound)
    as (i1 & c1 & H1 & Hc1 & _ & Hf1 & Hr1).
  assert (fromLVColIdx items f2 index2 <> -1) as Hfound2 by congruence.
  destruct (fromLVColIdx_found items f2 index2 Hlen Hfound2)
    as (i2 & c2 & H2 & Hc2 & _ & Hf2 & Hr2).
  assert (i1 = i2) as -> by lia.
  assert (c1 = c2) as -> by congruence.
  split; [congruence|]. subst. done.
Qed.

Lemma fromLVColIdx_injective_witness :
  fromLVColIdx normalThenFrozen true 0 = 1 /\ true = true /\ 0 = 0.
Proof.
  split; [reflexivity|].
  apply (fromLVColIdx_injective normalThenFrozen true 0 true 0).
  - by vm_compute.
  - by vm_compute.
  - reflexivity.
Defined.

Lemma toLVColIdx_loop_miss index items i idx :
  (forall (k : nat) c, items !! k = Some c -> index = i + Z.of_nat k ->
                       c.(visible) = false) ->
  toLVColIdx_loop index items i idx = -1.
Proof.
  revert i idx. induction items as [|x items IH]; intros i idx Hhid; [done|].
  cbn [toLVColIdx_loop].
  assert (Hrest : forall (k : nat) c, items !! k = Some c ->
                    index = i + 1 + Z.of_nat k -> visible c = false).
  { intros k c Hk Hi. apply (Hhid (S k) c); [done | lia]. }
  destruct (visible x) eqn:Hx; [|by apply IH].
  destruct (i =? index) eqn:Hi; [|by apply IH].
  apply Z.eqb_eq in Hi. rewrite (Hhid 0%nat x) in Hx; [done..|lia].
Qed.

(** X5: [toLVColIdx] answers [-1] exactly for an index that is not the index
    of a visible column (hidden, negative or past the end); for a visible
    column it answers a position within [visibleColumns]. *)
Theorem toLVColIdx_range items index :
  Z.of_nat (length items) <= max_int32 ->
  (toLVColIdx items index = -1 <->
   ~ exists (i : nat) c, index = Z.of_nat i /\ items !! i = Some c /\
                         c.(visible) = true) /\
  (toLVColIdx items index <> -1 ->
   0 <= toLVColIdx items index < visibleColumnCount items).
Proof.
  intros Hlen.
  assert (Hvis : forall (i : nat) c, items !! i = Some c -> visible c = true ->
            0 <= toLVColIdx items (Z.of_nat i) < visibleColumnCount items).
  { intros i c Hi Hv. rewrite (toLVColIdx_visible items i c) by done.
    rewrite visibleColumnCount_rank.
    pose proof (visibleRank_range (take i items)).
    pose proof (visibleRank_range (drop (S i) items)).
    assert (visibleRank items
            = visibleRank (take i items) + 1 + visibleRank (drop (S i) items))
      as ->; [|lia].
    transitivity (visibleRank (take i items ++ c :: drop (S i) items));
      [by rewrite take_drop_middle|].
    unfold visibleRank, visibleColumns.
    rewrite filter_app, filter_cons, decide_True, length_app by done.
    cbn [length]. lia. }
  assert (Hmiss : (~ exists (i : nat) c, index = Z.of_nat i /\
                     items !! i = Some c /\ visible c = true) ->
                  toLVColIdx items index = -1).
  { intros Hno. apply toLVColIdx_loop_miss. intros k c Hk Hi.
    destruct (visible c) eqn:Hv; [|done].
    destruct Hno. exists k, c. split; [lia | done]. }
  split.
  - split; [|exact Hmiss].
    intros Hm (i & c & -> & Hi & Hv). specialize (Hvis i c Hi Hv). lia.
  - intros Hfound.
    destruct (decide (0 <= index)) as [Hpos|Hneg].
    + destruct (items !! Z.to_nat index) as [c|] eqn:Hc.
      * destruct (visible c) eqn:Hv.
        -- replace index with (Z.of_nat (Z.to_nat index)) by lia.
           by eapply Hvis.
        -- destruct Hfound. apply Hmiss. intros (i & c' & -> & Hi & Hv').
           rewrite Nat2Z.id in Hc. congruence.
      * destruct Hfound. apply Hmiss. intros (i & c' & -> & Hi & Hv').
        rewrite Nat2Z.id in Hc. congruence.
    + destruct Hfound. apply Hmiss. intros (i & c' & -> & Hi & Hv'). lia.
Qed.

Lemma toLVColIdx_range_witness :
  toLVColIdx normalThenFrozen 5 = -1 /\
  0 <= toLVColIdx normalThenFrozen 1 < visibleColumnCount normalThenFrozen.
Proof.
  destruct (toLVColIdx_range normalThenFrozen 5) as [[_ Hmiss] _];
    [by vm_compute|].
  destruct (toLVColIdx_range normalThenFrozen 1) as [_ Hin];
    [by vm_compute|].
  split.
  - apply Hmiss. intros (i & c & Hi & Hc & _).
    assert (i = 5%nat) as -> by lia. discriminate.
  - apply Hin. by vm_compute.
Defined.

End ColumnMapping.

(** ** The requests of a selection *)

Section Requests.

Variable env : Env.







End Requests.

(** ** Every way out of [SetCurrentIndex] *)

Section Outcome.

Variable env : Env.











(** X9: When the model reports its rows reset, the current index becomes [-1]
    and current-index-changed is published once, also when the current
    index was [-1] already and whatever the delay (list views that carry
    out the requests, no [SetCurrentIndex] under way). *)
Theorem rowsResetHandler_clears s :
  accepts env -> countsItems env -> inSetCurrentIndex (tv s) = false ->
  currentIndex (tv (rowsResetHandler env s).2) = -1 /\
  published CurrentIndexChanged (hist (rowsResetHandler env s).2)
  = S (published CurrentIndexChanged (hist s)).
Proof.
  intros Hacc _ Hfree.
  destruct (rowsResetHandler env s) as [u s2] eqn:Hrun. cbn [snd].
  unfold rowsResetHandler, bind in Hrun.
  pose proof (silent_setItemCount env s) as Hs.
  destruct (setItemCount env s) as [r s1]. cbn [snd] in Hs.
  pose proof (silentStep_published CurrentIndexChanged _ _ Hs) as Hp.
  destruct Hs as [Ht _].
  destruct (SetCurrentIndex_run env Hacc (-1) s1)
    as (l & s' & Hset & Ht' & Hp' & _); [by rewrite Ht|].
  rewrite Hset in Hrun. injection Hrun as _ <-.
  rewrite Ht', Hp', Hp. by split.
Qed.

End Outcome.



Lemma rowsResetHandler_clears_witness :
  currentIndex (tv (rowsResetHandler calmEnv
                      (mkSt (set_currentIndex 4 delayedView) [])).2) = -1 /\
  published CurrentIndexChanged
    (hist (rowsResetHandler calmEnv
             (mkSt (set_currentIndex 4 delayedView) [])).2) = 1%nat.
Proof.
  apply (rowsResetHandler_clears calmEnv
           (mkSt (set_currentIndex 4 delayedView) [])).
  - intros h hwnd m Hm. by destruct m.
  - intros h. by vm_compute.
  - reflexivity.
Defined.

(** ** What the functions call *)

Lemma emits_mono (P Q : Call -> Prop) {A} (c : M A) :
  (forall x, P x -> Q x) -> emits P c -> emits Q c.
Proof.
  intros HPQ Hc s. destruct (Hc s) as (h' & Hh & HP).
  exists h'. split; [done|]. eapply Forall_impl; eauto.
Qed.

Lemma emits_ret P {A} (a : A) : emits P (ret a).
Proof. intros s. by exists []. Qed.

Lemma emits_get P {A} (f : TableView -> A) : emits P (get f).
Proof. intros s. by exists []. Qed.

Lemma emits_modify P f : emits P (modify f).
Proof. intros s. by exists []. Qed.

Lemma emits_perform (P : Call -> Prop) {A} c (ans : History -> A) :
  P c -> emits P (perform c ans).
Proof. intros Hc s. exists [c]. split; [done|]. by constructor. Qed.

Lemma emits_bind P {A B} (c : M A) (k : A -> M B) :
  emits P c -> (forall a, emits P (k a)) -> emits P (bind c k).
Proof.
  intros Hc Hk s. unfold bind. destruct (Hc s) as (h1 & Hh1 & HP1).
  destruct (c s) as [a s1]. cbn [snd] in *.
  destruct (Hk a s1) as (h2 & Hh2 & HP2).
  exists (h2 ++ h1). split; [by rewrite Hh2, Hh1, app_assoc|].
  by apply Forall_app.
Qed.

Lemma emits_orReturn P c k : emits P c -> emits P k -> emits P (orReturn c k).
Proof.
  intros Hc Hk. apply emits_bind; [done|].
  intros [e|]; [apply emits_ret | done].
Qed.

Lemma emits_if P {A} (b : bool) (c1 c2 : M A) :
  emits P c1 -> emits P c2 -> emits P (if b then c1 else c2).
Proof. by destruct b. Qed.

Lemma emits_silent {A} (c : M A) :
  silent c -> emits (fun x => isNotification x = false) c.
Proof.
  intros Hc s. destruct (Hc s) as [_ (h' & Hh & Hn)].
  exists h'. split; [done|]. clear Hh.
  induction h' as [|x h' IH]; [done|].
  unfold notifications in Hn. simpl in Hn.
  destruct (isNotification x) eqn:Hx; [done|]. constructor; [done|].
  by apply IH.
Qed.

Create HintDb emits.

#[global] Hint Resolve emits_ret emits_get emits_modify emits_bind
  emits_orReturn emits_if : emits.

Section Emits.

Variable env : Env.

Lemma emits_sendOrFail (P : Call -> Prop) hwnd m msg :
  P (cSendMessage hwnd m) -> emits P (sendOrFail env hwnd m msg).
Proof.
  intros Hm. apply emits_bind; [by apply emits_perform | auto with emits].
Qed.








End Emits.

(** ** Item notifications *)

Section ItemNotifications.

Variable env : Env.



End ItemNotifications.


Section Activation.

Variable env : Env.


(** A click on a column header.  The branch hands back column-clicked
    for the column that [fromLVColIdx] gives (also when that is [-1]).  A
    model that is a [Sorter] is asked whether it sorts by that column; if
    not, or without a [Sorter], the sort state of the widget stays and the
    model is not sorted.  If so the widget takes the column as sorted
    column and the model is sorted by it: ascending if the column was not
    the model's sorted column (the model is then not asked for its order),
    and in the reverse of the model's order if it was. *)
Theorem onColumnClick_sorts frozenPane iSubItem s :
  let col := ColumnIndex.fromLVColIdx (columns (tv s)) frozenPane iSubItem in
  let r := onColumnClick frozenPane iSubItem s in
  r.1 = [ColumnClicked col] /\
  match (theSorter s).1 with
  | None => r.2 = s
  | Some sorter =>
      let h1 := cColumnSortable col :: hist s in
      (sorter.(ColumnSortable) (hist s) col = false ->
       r.2 = mkSt (tv s) h1) /\
      (sorter.(ColumnSortable) (hist s) col = true ->
       sortedColumnIndex (tv r.2) = col /\
       (col <> sorter.(SortedColumn) h1 ->
        sortOrder (tv r.2) = SortAscending /\
        hist r.2 = cSort col SortAscending :: cSortedColumn :: h1) /\
       (col = sorter.(SortedColumn) h1 ->
        forall order,
          order = match sorter.(sorter_SortOrder) (cSortedColumn :: h1) with
                  | SortDescending => SortAscending
                  | SortAscending => SortDescending
                  end ->
          sortOrder (tv r.2) = order /\
          hist r.2 = cSort col order :: cSortOrder :: cSortedColumn :: h1))
  end.
Proof.
  cbv zeta.
  destruct (onColumnClick frozenPane iSubItem s) as [sig s'] eqn:Hrun.
  cbn [fst snd]. unfold onColumnClick in Hrun.
  unfold bind at 1, get at 1 in Hrun. unfold bind at 1 in Hrun.
  assert (Hs : theSorter s
               = (match model (tv s) with
                  | Some mdl => asSorter mdl
                  | None => None
                  end, s)) by reflexivity.
  rewrite Hs in *. cbn [fst].
  destruct (match model (tv s) with
            | Some mdl => asSorter mdl
            | None => None
            end) as [sorter|].
  - unfold bind at 1 in Hrun. unfold bind at 1, perform at 1 in Hrun.
    destruct (ColumnSortable sorter (hist s) _) eqn:Hsortable.
    + unfold bind at 1, perform at 1 in Hrun. cbn [tv hist] in Hrun.
      unfold bind at 1, clickOrder in Hrun.
      destruct (_ =? SortedColumn sorter _) eqn:Hsame in Hrun;
        cbn [negb] in Hrun.
      * apply Z.eqb_eq in Hsame.
        unfold bind, perform, modify, ret in Hrun. cbn [tv hist] in Hrun.
        injection Hrun as <- <-. cbn [tv hist].
        split; [done|]. split; [done|]. intros _. split; [done|].
        split; [done|]. intros _ order ->. done.
      * apply Z.eqb_neq in Hsame.
        unfold bind, perform, modify, ret in Hrun. cbn [tv hist] in Hrun.
        injection Hrun as <- <-. cbn [tv hist].
        split; [done|]. split; [done|]. intros _. split; [done|].
        split; [done|]. intros Heq. done.
    + unfold ret in Hrun. injection Hrun as <- <-.
      split; [done|]. split; [done|]. done.
  - unfold bind, ret in Hrun. injection Hrun as <- <-. done.
Qed.

End Activation.


(** ** The text buffer *)

(** X12: The text written for a cell, for a character count that fits the
    buffer: the first [max - 1] code units of the text followed by a NUL,
    [max] being the smaller of the count and the length of the text with
    its NUL; the buffer behind is untouched.  So a text shorter than the
    count arrives whole, and a longer one cut to the count less one.  A
    count of zero or less makes the branch panic, and so does a text that
    with a count above 264 runs past the buffer. *)
Theorem writeText_truncates (mini : Z -> Z -> Z) chars cchTextMax buf :
  (forall a b, mini a b = Z.min a b) ->
  length buf = textBufferLength ->
  (0 < cchTextMax <= 264 ->
   let max := Z.min (Z.of_nat (length chars) + 1) cchTextMax in
   writeText mini (chars ++ [0]) cchTextMax buf
   = Some (take (Z.to_nat (max - 1)) chars ++ 0 :: drop (Z.to_nat max) buf) /\
   (Z.of_nat (length chars) < cchTextMax ->
    writeText mini (chars ++ [0]) cchTextMax buf
    = Some (chars ++ 0 :: drop (S (length chars)) buf))) /\
  (cchTextMax <= 0 -> writeText mini (chars ++ [0]) cchTextMax buf = None) /\
  (264 < cchTextMax -> 264 <= Z.of_nat (length chars) ->
   writeText mini (chars ++ [0]) cchTextMax buf = None).
Proof.
  intros Hmini Hbuf.
  assert (Hlen : Z.of_nat (length (chars ++ [0])) = Z.of_nat (length chars) + 1)
    by (rewrite length_app; simpl; lia).
  unfold writeText. rewrite Hmini, Hlen. unfold textBufferLength in *.
  split; [|split].
  - intros Hcch.
    set (max := Z.min (Z.of_nat (length chars) + 1) cchTextMax).
    assert (Hmax : 1 <= max <= 264 /\ max <= Z.of_nat (length chars) + 1)
      by (subst max; lia).
    assert (Hgen :
      (if max <? 0 then None
       else if (0 <=? max - 1) && (max - 1 <? Z.of_nat 264)
            then Some (<[Z.to_nat (max - 1):=0]>
                         (take (264 `min` length (take (Z.to_nat max)
                                                       (chars ++ [0])))
                               (take (Z.to_nat max) (chars ++ [0]))
                          ++ drop (264 `min` length (take (Z.to_nat max)
                                                           (chars ++ [0])))
                                  buf))
            else None)
      = Some (take (Z.to_nat (max - 1)) chars
              ++ 0 :: drop (Z.to_nat max) buf)).
    { replace (max <? 0) with false by (symmetry; apply Z.ltb_ge; lia).
      replace ((0 <=? max - 1) && (max - 1 <? Z.of_nat 264)) with true
        by (symmetry; apply andb_true_intro; split;
            [apply Z.leb_le | apply Z.ltb_lt]; lia).
      f_equal.
      assert (Hsrc : length (take (Z.to_nat max) (chars ++ [0])) = Z.to_nat max).
      { rewrite length_take, length_app. simpl. lia. }
      rewrite Hsrc.
      replace (264 `min` Z.to_nat max)%nat with (Z.to_nat max) by lia.
      rewrite firstn_all2 by lia.
      replace (Z.to_nat max) with (S (Z.to_nat (max - 1))) by lia.
      assert (Hx : exists x, (chars ++ [0]) !! Z.to_nat (max - 1) = Some x).
      { apply lookup_lt_is_Some. rewrite length_app. simpl. lia. }
      destruct Hx as [x Hx].
      rewrite (take_S_r _ _ x Hx), take_app_le by lia.
      rewrite <- app_assoc. cbn [app].
      rewrite insert_app_r_alt by (rewrite length_take; lia).
      rewrite length_take.
      replace (Z.to_nat (max - 1) - Z.to_nat (max - 1) `min` length chars)%nat
        with 0%nat by lia.
      done. }
    split; [exact Hgen|].
    intros Hshort. rewrite Hgen.
    replace max with (Z.of_nat (length chars) + 1) by (subst max; lia).
    replace (Z.to_nat (Z.of_nat (length chars) + 1 - 1)) with (length chars)
      by lia.
    replace (Z.to_nat (Z.of_nat (length chars) + 1)) with (S (length chars))
      by lia.
    by rewrite firstn_all.
  - intros Hcch.
    destruct (Z.min (Z.of_nat (length chars) + 1) cchTextMax <? 0) eqn:Hneg;
      [done|].
    apply Z.ltb_ge in Hneg.
    replace (0 <=? Z.min (Z.of_nat (length chars) + 1) cchTextMax - 1)
      with false by (symmetry; apply Z.leb_gt; lia).
    done.
  - intros Hcch Hlong.
    replace (Z.min (Z.of_nat (length chars) + 1) cchTextMax <? 0) with false
      by (symmetry; apply Z.ltb_ge; lia).
    replace (Z.min (Z.of_nat (length chars) + 1) cchTextMax - 1 <? Z.of_nat 264)
      with false by (symmetry; apply Z.ltb_ge; lia).
    by rewrite andb_false_r.
Qed.

Lemma writeText_truncates_witness :
  writeText Z.min ([104; 105; 33] ++ [0]) 3 (replicate 264 7)
  = Some ([104; 105] ++ 0 :: replicate 261 7) /\
  writeText Z.min ([104; 105; 33] ++ [0]) 0 (replicate 264 7) = None.
Proof.
  destruct (writeText_truncates Z.min [104; 105; 33] 3 (replicate 264 7))
    as ([Hfit _] & _); [done | done | lia |].
  destruct (writeText_truncates Z.min [104; 105; 33] 0 (replicate 264 7))
    as (_ & Hzero & _); [done | done |].
  split; [exact Hfit | apply Hzero; lia].
Defined.

(** ** The column order, saved and restored *)

Section SavedOrder.
Import GoInt GoIntFacts ColumnIndex.

Lemma savedDisplayOrder_length vis fc indices i names :
  savedDisplayOrder vis fc indices i = Some names ->
  length names = length indices.
Proof.
  revert i names. induction indices as [|j rest IH]; intros i names; simpl.
  - by intros [= <-].
  - destruct (at_index vis _) as [tvc|]; [|done].
    destruct (savedDisplayOrder vis fc rest (i + 1)) as [ns|] eqn:Hrest;
      [|done].
    intros [= <-]. simpl. f_equal. eauto.
Qed.

Lemma savedDisplayOrder_lookup vis fc indices i names k idx :
  savedDisplayOrder vis fc indices i = Some names ->
  indices !! k = Some idx ->
  exists tvc,
    at_index vis (if i + Z.of_nat k >=? fc then int32 (idx + int32 fc) else idx)
    = Some tvc /\
    names !! k = Some tvc.(name).
Proof.
  revert i names k. induction indices as [|j rest IH]; intros i names k; simpl.
  - done.
  - destruct (at_index vis _) as [tvc|] eqn:Hat; [|done].
    destruct (savedDisplayOrder vis fc rest (i + 1)) as [ns|] eqn:Hrest;
      [|done].
    intros [= <-]. destruct k as [|k].
    + intros [= <-]. exists tvc. rewrite Z.add_0_r. by split.
    + change ((j :: rest) !! S k) with (rest !! k).
      change ((name tvc :: ns) !! S k) with (ns !! k).
      intros Hk. destruct (IH _ _ _ Hrest Hk) as (tvc' & Hat' & Hn).
      exists tvc'. split; [|done].
      by replace (i + Z.of_nat (S k)) with (i + 1 + Z.of_nat k) by lia.
Qed.

Lemma findSlot_lookup nm names j0 n k :
  NoDup names -> names !! k = Some nm ->
  j0 + Z.of_nat (length names) <= n ->
  findSlot nm names j0 n = Some (j0 + Z.of_nat k).
Proof.
  revert j0 k. induction names as [|x names IH]; intros j0 k Hnd Hk Hn;
    [done|].
  apply NoDup_cons in Hnd as [Hx Hnd]. cbn [findSlot]. simpl in Hn.
  destruct k as [|k]; simpl in Hk.
  - injection Hk as ->. rewrite String.eqb_refl.
    replace (j0 <? n) with true by (symmetry; apply Z.ltb_lt; lia).
    simpl. f_equal. lia.
  - assert (nm <> x) as Hne.
    { intros ->. apply Hx. by eapply list_elem_of_lookup_2. }
    apply String.eqb_neq in Hne. rewrite Hne. simpl.
    rewrite (IH (j0 + 1) k) by (done || lia). f_equal. lia.
Qed.

Lemma findSlot_missing nm names j0 n :
  nm ∉ names -> findSlot nm names j0 n = None.
Proof.
  revert j0. induction names as [|x names IH]; intros j0 Hnm; [done|].
  apply not_elem_of_cons in Hnm as [Hne Hnm]. cbn [findSlot].
  apply String.eqb_neq in Hne. rewrite Hne. simpl. by apply IH.
Qed.

(** The loop of [fillIndices] run along a family of arrays. *)
Lemma fillIndices_along cols i names n fc (f : nat -> list Z) :
  (forall k c, cols !! k = Some c ->
     match findSlot c.(name) names 0 n with
     | Some j =>
         <[Z.to_nat j := int32 (if j >=? fc then sub (i + Z.of_nat k) fc
                                else i + Z.of_nat k)]> (f k)
     | None => f k
     end = f (S k)) ->
  fillIndices cols i names n fc (f 0%nat) = f (length cols).
Proof.
  revert i f. induction cols as [|c cols IH]; intros i f Hstep; [done|].
  cbn [fillIndices length].
  pose proof (Hstep 0%nat c eq_refl) as H0. rewrite Z.add_0_r in H0.
  rewrite H0. apply (IH (i + 1) (fun k => f (S k))).
  intros k c' Hk. specialize (Hstep (S k) c' Hk).
  by replace (i + Z.of_nat (S k)) with (i + 1 + Z.of_nat k) in Hstep by lia.
Qed.

Lemma int32_add_back idx fc k :
  is_int32 idx -> 0 <= fc <= max_int32 -> 0 <= k ->
  int32 (idx + fc) = k -> idx + fc = k.
Proof.
  unfold is_int32, max_int32, int32, wrap. intros Hidx Hfc Hk H.
  change (32 - 1) with 31 in *. change (2 ^ 32) with 4294967296 in *.
  change (2 ^ 31) with 2147483648 in *.
  destruct (decide (idx + fc < 2147483648)) as [Hlt|Hge].
  - rewrite Z.mod_small in H by lia. lia.
  - replace (idx + fc + 2147483648) with
      ((idx + fc - 2147483648) + 1 * 4294967296) in H by lia.
    rewrite Z_mod_plus_full, Z.mod_small in H by lia. lia.
Qed.


Lemma restoredSoFar_lookup vis indices names k j :
  restoredSoFar vis indices names k !! j
  = match indices !! j, names !! j with
    | Some idx, Some nm =>
        Some (if bool_decide (nm ∈ name <$> take k vis) then idx else 0)
    | _, _ => None
    end.
Proof.
  unfold restoredSoFar. rewrite lookup_zip_with.
  by destruct (indices !! j), (names !! j).
Qed.

Lemma take_names_S (vis : TableViewColumnList) k c nm :
  vis !! k = Some c ->
  nm ∈ name <$> take (S k) vis <-> nm ∈ name <$> take k vis \/ nm = name c.
Proof.
  intros Hk. rewrite (take_S_r _ _ _ Hk), fmap_app, elem_of_app. simpl.
  rewrite list_elem_of_singleton. done.
Qed.

Lemma fillIndices_saved vis fc indices names :
  NoDup (name <$> vis) ->
  Z.of_nat (length vis) <= max_int32 ->
  0 <= fc <= Z.of_nat (length vis) ->
  length indices = length vis ->
  Forall is_int32 indices ->
  savedDisplayOrder vis fc indices 0 = Some names ->
  NoDup names ->
  fillIndices vis 0 names (Z.of_nat (length vis)) fc
              (replicate (length vis) 0) = indices.
Proof.
  intros Hvis Hmax Hfc Hlen Hint Hsaved Hnames.
  pose proof (savedDisplayOrder_length _ _ _ _ _ Hsaved) as Hlen'.
  transitivity (restoredSoFar vis indices names (length vis)).
  - replace (replicate (length vis) 0)
      with (restoredSoFar vis indices names 0).
    2:{ apply list_eq. intros j. rewrite restoredSoFar_lookup.
        destruct (indices !! j) as [idx|] eqn:Hj.
        - destruct (lookup_lt_is_Some_2 names j) as [nm Hnm].
          { apply lookup_lt_Some in Hj. lia. }
          rewrite Hnm. rewrite bool_decide_eq_false_2.
          2:{ intros H. by apply elem_of_nil in H. }
          symmetry. apply lookup_replicate_2. apply lookup_lt_Some in Hj. lia.
        - symmetry. apply lookup_replicate_None.
          apply lookup_ge_None in Hj. lia. }
    apply fillIndices_along. intros k c Hk.
    destruct (decide (name c ∈ names)) as [Hin|Hout].
    + apply list_elem_of_lookup in Hin as [j Hj].
      rewrite (findSlot_lookup _ _ 0 _ j Hnames Hj) by lia.
      destruct (lookup_lt_is_Some_2 indices j) as [idx Hidx].
      { apply lookup_lt_Some in Hj. lia. }
      destruct (savedDisplayOrder_lookup _ _ _ _ _ _ _ Hsaved Hidx)
        as (tvc & Hat & Hn).
      assert (name tvc = name c) as Hsame by congruence.
      unfold at_index in Hat.
      destruct (_ <? 0) eqn:Hneg in Hat; [done|]. apply Z.ltb_ge in Hneg.
      assert (Z.to_nat (if 0 + Z.of_nat j >=? fc
                        then int32 (idx + int32 fc) else idx) = k) as Hpos.
      { eapply NoDup_lookup; [exact Hvis| |].
        - rewrite list_lookup_fmap, Hat. simpl. by rewrite Hsame.
        - by rewrite list_lookup_fmap, Hk. }
      assert (is_int32 idx) as Hidx32.
      { eapply Forall_lookup_1 in Hint; eauto. }
      assert (int32 (if 0 + Z.of_nat j >=? fc
                     then sub (0 + Z.of_nat k) fc else 0 + Z.of_nat k) = idx)
        as ->.
      { apply lookup_lt_Some in Hk.
        rewrite (int32_small fc) in Hpos, Hneg
          by (unfold is_int32, max_int32 in *; lia).

        destruct (0 + Z.of_nat j >=? fc).
        - assert (idx + fc = Z.of_nat k) as Hsum.
          { apply int32_add_back; [done|lia|lia|lia]. }
          unfold sub. rewrite int_small.
          2:{ unfold is_int, min_int, max_int, is_int32, max_int32 in *. lia. }
          replace (0 + Z.of_nat k - fc) with idx by lia.
          by apply int32_small.
        - replace (0 + Z.of_nat k) with idx by lia. by apply int32_small. }
      replace (Z.to_nat (0 + Z.of_nat j)) with j by lia.
      apply list_eq. intros j'.
      destruct (decide (j' = j)) as [->|Hne].
      * rewrite list_lookup_insert_eq.
        2:{ unfold restoredSoFar. rewrite length_zip_with.
            apply lookup_lt_Some in Hj, Hidx. lia. }
        rewrite restoredSoFar_lookup, Hidx, Hj.
        rewrite bool_decide_eq_true_2; [done|].
        apply (take_names_S _ _ _ _ Hk). by right.
      * rewrite list_lookup_insert_ne by done.
        rewrite !restoredSoFar_lookup.
        destruct (indices !! j') as [idx'|]; [|done].
        destruct (names !! j') as [nm|] eqn:Hnm; [|done].
        assert (nm ∈ name <$> take k vis <-> nm ∈ name <$> take (S k) vis)
          as Hiff.
        { rewrite (take_names_S _ _ _ _ Hk).
          assert (nm <> name c).
          { intros ->. apply Hne. eapply NoDup_lookup; eauto. }
          naive_solver. }
        by rewrite (bool_decide_ext _ _ Hiff).
    + rewrite findSlot_missing by done.
      apply list_eq. intros j. rewrite !restoredSoFar_lookup.
      destruct (indices !! j) as [idx'|]; [|done].
      destruct (names !! j) as [nm|] eqn:Hnm; [|done].
      assert (nm ∈ name <$> take k vis <-> nm ∈ name <$> take (S k) vis)
        as Hiff.
      { rewrite (take_names_S _ _ _ _ Hk).
        assert (nm <> name c).
        { intros ->. apply Hout. by eapply list_elem_of_lookup_2. }
        naive_solver. }
      by rewrite (bool_decide_ext _ _ Hiff).
  - apply list_eq. intros j. rewrite restoredSoFar_lookup.
    destruct (indices !! j) as [idx|] eqn:Hidx; [|done].
    destruct (savedDisplayOrder_lookup _ _ _ _ _ _ _ Hsaved Hidx)
      as (tvc & Hat & ->).
    rewrite bool_decide_eq_true_2; [done|].
    rewrite firstn_all. unfold at_index in Hat.
    destruct (_ <? 0) in Hat; [done|].
    apply list_elem_of_fmap. exists tvc. split; [done|].
    by eapply list_elem_of_lookup_2.
Qed.


Lemma name2tvc_from_other items p m n :
  n ∉ name <$> items -> name2tvc_from items p m !! n = m !! n.
Proof.
  revert p m. induction items as [|c items IH]; intros p m Hn; [done|].
  rewrite fmap_cons in Hn. apply not_elem_of_cons in Hn as [Hne Hn].
  cbn [name2tvc_from]. rewrite IH by done. by rewrite lookup_insert_ne.
Qed.

Lemma name2tvc_from_lookup items p m k tvc :
  NoDup (name <$> items) -> items !! k = Some tvc ->
  name2tvc_from items p m !! tvc.(name) = Some (p + k)%nat.
Proof.
  revert p m k. induction items as [|c items IH]; intros p m k Hnd Hk; [done|].
  rewrite fmap_cons in Hnd. apply NoDup_cons in Hnd as [Hc Hnd].
  cbn [name2tvc_from]. destruct k as [|k].
  - injection Hk as ->. rewrite name2tvc_from_other by done.
    rewrite lookup_insert_eq. f_equal. lia.
  - rewrite (IH (S p) _ k) by done. f_equal. lia.
Qed.

(** With distinct column names, the name of a visible column leads back
    to it. *)
Lemma liveVisible_visible items tvc :
  NoDup (name <$> items) -> tvc ∈ visibleColumns items ->
  liveVisible (name2tvc_of items) items tvc.(name) = true.
Proof.
  intros Hnd Hin. unfold visibleColumns in Hin.
  apply list_elem_of_filter in Hin as [Hv Hin].
  apply list_elem_of_lookup in Hin as [k Hk].
  unfold liveVisible, name2tvc_of.
  rewrite (name2tvc_from_lookup _ _ _ _ _ Hnd Hk). simpl. by rewrite Hk.
Qed.

Lemma filter_all {A} (f : A -> bool) l :
  (forall x, x ∈ l -> f x = true) -> List.filter f l = l.
Proof.
  induction l as [|x l IH]; intros H; [done|]. simpl.
  rewrite H by left. f_equal. apply IH. intros y Hy. apply H. by right.
Qed.

Lemma filter_none {A} (P : A -> Prop) `{!forall x, Decision (P x)}
      (l : list A) :
  (forall x, x ∈ l -> ~ P x) -> filter P l = [].
Proof.
  induction l as [|x l IH]; intros Hall; [done|].
  rewrite filter_cons, decide_False by (apply Hall; left).
  apply IH. intros y Hy. apply Hall. by right.
Qed.

Lemma savedDisplayOrder_names vis fc indices i names nm :
  savedDisplayOrder vis fc indices i = Some names ->
  nm ∈ names -> exists tvc, tvc ∈ vis /\ tvc.(name) = nm.
Proof.
  intros Hsaved Hin. apply list_elem_of_lookup in Hin as [k Hk].
  destruct (lookup_lt_is_Some_2 indices k) as [idx Hidx].
  { rewrite <- (savedDisplayOrder_length _ _ _ _ _ Hsaved).
    by eapply lookup_lt_Some. }
  destruct (savedDisplayOrder_lookup _ _ _ _ _ _ _ Hsaved Hidx)
    as (tvc & Hat & Hn).
  exists tvc. split; [|congruence].
  unfold at_index in Hat. destruct (_ <? 0) in Hat; [done|].
  by eapply list_elem_of_lookup_2.
Qed.

(** X13: What [SaveState] stores of the column order, [RestoreState] turns
    back into the order arrays it was read from.  For a registry of
    distinct column names, let [names] be the display order that
    [SaveState] computes from the order arrays [indices] of the two panes
    (frozen pane first), with no name twice.  Restored over the same
    columns, the reconciliation keeps [names] as they are, and the array
    filled in for [LVM_SETCOLUMNORDERARRAY] is [indices] again. *)
Theorem saved_order_restored items indices names :
  NoDup (name <$> items) ->
  Z.of_nat (length items) <= max_int32 ->
  length indices = length (visibleColumns items) ->
  Forall is_int32 indices ->
  savedDisplayOrder (visibleColumns items) (visibleFrozenColumnCount items)
                    indices 0 = Some names ->
  NoDup names ->
  reconcileDisplayOrder (name2tvc_of items) items names = names /\
  fillIndices (visibleColumns items) 0 names
              (visibleColumnCount items) (visibleFrozenColumnCount items)
              (replicate (Z.to_nat (visibleColumnCount items)) 0)
  = indices.
Proof.
  intros Hnd Hmax Hlen Hint Hsaved Hnames.
  assert (visibleColumnCount items
          = Z.of_nat (length (visibleColumns items))) as Hn
    by apply ColumnMapping.visibleColumnCount_rank.
  assert (0 <= visibleFrozenColumnCount items <= visibleColumnCount items)
    as Hfc.
  { rewrite ColumnMapping.visibleColumnCount_rank,
      ColumnMapping.visibleFrozenColumnCount_rank,
      ColumnMapping.visibleRank_split.
    pose proof (ColumnIndexFacts.paneRank_range true items).
    pose proof (ColumnIndexFacts.paneRank_range false items). lia. }
  assert (visibleColumnCount items <= Z.of_nat (length items)) as Hle.
  { rewrite ColumnMapping.visibleColumnCount_rank.
    pose proof (ColumnIndexFacts.visibleRank_range items). lia. }
  assert (NoDup (name <$> visibleColumns items)) as Hndv.
  { unfold visibleColumns. eapply sublist_NoDup; [exact Hnd|].
    apply fmap_sublist, sublist_filter. }
  assert (names ≡ₚ name <$> visibleColumns items) as Hperm.
  { apply submseteq_length_Permutation.
    - apply NoDup_submseteq; [done|]. intros nm Hnm.
      destruct (savedDisplayOrder_names _ _ _ _ _ _ Hsaved Hnm)
        as (tvc & Hin & <-).
      apply list_elem_of_fmap. by exists tvc.
    - rewrite length_fmap, (savedDisplayOrder_length _ _ _ _ _ Hsaved). lia. }
  split.
  - rewrite reconcileDisplayOrder_run.
    assert (unlisted items names = []) as ->.
    { unfold unlisted. rewrite filter_none; [done|].
      intros tvc Hin Hout. apply Hout. rewrite Hperm.
      apply list_elem_of_fmap. by exists tvc. }
    rewrite app_nil_r. apply filter_all.
    + intros nm Hnm.
      destruct (savedDisplayOrder_names _ _ _ _ _ _ Hsaved Hnm)
        as (tvc & Hin & <-).
      by apply liveVisible_visible.
  - rewrite Hn, Nat2Z.id.
    apply fillIndices_saved; try done; lia.
Qed.

End SavedOrder.

Lemma saved_order_restored_witness :
  reconcileDisplayOrder (name2tvc_of frozenFirst) frozenFirst ["f"; "b"; "a"]
  = ["f"; "b"; "a"] /\
  fillIndices (ColumnIndex.visibleColumns frozenFirst) 0 ["f"; "b"; "a"]
              (ColumnIndex.visibleColumnCount frozenFirst)
              (ColumnIndex.visibleFrozenColumnCount frozenFirst)
              (replicate
                 (Z.to_nat (ColumnIndex.visibleColumnCount frozenFirst)) 0)
  = [0; 1; 0].
Proof.
  apply (saved_order_restored frozenFirst [0; 1; 0] ["f"; "b"; "a"]).
  - by apply (bool_decide_unpack _); vm_compute.
  - by vm_compute.
  - reflexivity.
  - repeat constructor; by vm_compute.
  - reflexivity.
  - by apply (bool_decide_unpack _); vm_compute.
Defined.

(** ** The columns in display order *)

Section Ordered.
Import GoInt GoIntFacts ColumnIndex.

Lemma orderedColumns_lookup vis fc indices i cols k idx :
  orderedColumns vis fc indices i = Some cols ->
  indices !! k = Some idx ->
  is_Some (cols !! k) /\
  cols !! k
  = at_index vis (if i + Z.of_nat k >? fc then int32 (idx + int32 fc)
                  else idx).
Proof.
  revert i cols k. induction indices as [|j rest IH]; intros i cols k; simpl.
  - done.
  - destruct (at_index vis _) as [tvc|] eqn:Hat; [|done].
    destruct (orderedColumns vis fc rest (i + 1)) as [cs|] eqn:Hrest; [|done].
    intros [= <-]. destruct k as [|k].
    + intros [= <-]. rewrite Z.add_0_r, Hat. by split; [eexists|].
    + change ((j :: rest) !! S k) with (rest !! k).
      change ((tvc :: cs) !! S k) with (cs !! k).
      intros Hk. destruct (IH _ _ _ Hrest Hk) as [Hsome Heq].
      split; [done|]. rewrite Heq.
      by replace (i + Z.of_nat (S k)) with (i + 1 + Z.of_nat k) by lia.
Qed.

Lemma orderedColumns_length vis fc indices i cols :
  orderedColumns vis fc indices i = Some cols ->
  length cols = length indices.
Proof.
  revert i cols. induction indices as [|j rest IH]; intros i cols; simpl.
  - by intros [= <-].
  - destruct (at_index vis _) as [tvc|]; [|done].
    destruct (orderedColumns vis fc rest (i + 1)) as [cs|] eqn:Hrest; [|done].
    intros [= <-]. simpl. f_equal. eauto.
Qed.

(** X14: [VisibleColumnsInDisplayOrder] against [SaveState], on the same order
    arrays.  Where both loops run through, the column that the first puts
    at a position bears the name that the second stores there, at every
    position other than [frozenCount]; with no frozen column visible the
    two agree throughout.  At position [frozenCount], the first slot of
    the normal pane, [SaveState] adds [frozenCount] to the entry of the
    order array and [VisibleColumnsInDisplayOrder], which tests
    [i > frozenCount], does not. *)
Theorem orderedColumns_saved vis fc indices cols names :
  orderedColumns vis fc indices 0 = Some cols ->
  savedDisplayOrder vis fc indices 0 = Some names ->
  length cols = length indices /\
  (forall k : nat, Z.of_nat k <> fc ->
                   name <$> cols !! k = names !! k) /\
  (fc = 0 -> Forall is_int32 indices -> name <$> cols = names) /\
  (forall idx, 0 <= fc -> indices !! Z.to_nat fc = Some idx ->
     cols !! Z.to_nat fc = at_index vis idx /\
     names !! Z.to_nat fc
     = name <$> at_index vis (int32 (idx + int32 fc))).
Proof.
  intros Hcols Hnames.
  pose proof (orderedColumns_length _ _ _ _ _ Hcols) as Hlc.
  pose proof (savedDisplayOrder_length _ _ _ _ _ Hnames) as Hln.
  assert (forall (k : nat) idx, indices !! k = Some idx ->
            (Z.of_nat k <> fc \/ (fc = 0 /\ is_int32 idx)) ->
            name <$> cols !! k = names !! k) as Hsame.
  { intros k idx Hidx Hk.
    destruct (orderedColumns_lookup _ _ _ _ _ _ _ Hcols Hidx) as [_ Hc].
    destruct (savedDisplayOrder_lookup _ _ _ _ _ _ _ Hnames Hidx)
      as (tvc & Hat & Hn).
    rewrite Hc, Hn. rewrite !Z.add_0_l in *.
    destruct Hk as [Hk|[-> Hint]].
    - destruct (Z.of_nat k >? fc) eqn:Hgt, (Z.of_nat k >=? fc) eqn:Hge;
        try lia; by rewrite Hat.
    - destruct (Z.of_nat k >? 0) eqn:Hgt, (Z.of_nat k >=? 0) eqn:Hge;
        try lia; try by rewrite Hat.
      change (int32 0) with 0 in Hat. rewrite Z.add_0_r in Hat.
      rewrite int32_small in Hat by done. by rewrite Hat. }
  split; [done|]. split; [|split].
  - intros k Hk. destruct (indices !! k) as [idx|] eqn:Hidx; [eauto|].
    apply lookup_ge_None in Hidx.
    rewrite (proj2 (lookup_ge_None cols k)), (proj2 (lookup_ge_None names k));
      [done|lia|lia].
  - intros -> Hint. apply list_eq. intros k. rewrite list_lookup_fmap.
    destruct (indices !! k) as [idx|] eqn:Hidx.
    + apply (Hsame k idx Hidx). right. split; [done|].
      by eapply Forall_lookup_1 in Hint.
    + apply lookup_ge_None in Hidx.
      rewrite (proj2 (lookup_ge_None cols k)), (proj2 (lookup_ge_None names k));
        [done|lia|lia].
  - intros idx Hfc Hidx.
    destruct (orderedColumns_lookup _ _ _ _ _ _ _ Hcols Hidx) as [_ Hc].
    destruct (savedDisplayOrder_lookup _ _ _ _ _ _ _ Hnames Hidx)
      as (tvc & Hat & Hn).
    rewrite Z.add_0_l, Z2Nat.id in Hc, Hat by done.
    replace (fc >? fc) with false in Hc
      by (symmetry; rewrite Z.gtb_ltb; apply Z.ltb_irrefl).
    replace (fc >=? fc) with true in Hat by (symmetry; apply Z.geb_le; lia).
    split; [done|]. by rewrite Hn, Hat.
Qed.

End Ordered.

Lemma orderedColumns_saved_witness :
  let vis := ColumnIndex.visibleColumns frozenFirst in
  let f := mkColumn "f" EmptyString 100 true true 0 EmptyString in
  let cols := [f; f; plainColumn "b"] in
  let names := ["f"; "a"; "b"] in
  length cols = length [0; 0; 1] /\
  (forall k : nat, Z.of_nat k <> 1 -> name <$> cols !! k = names !! k) /\
  (1 = 0 -> Forall GoInt.is_int32 [0; 0; 1] -> name <$> cols = names) /\
  (forall idx, 0 <= 1 -> [0; 0; 1] !! Z.to_nat 1 = Some idx ->
     cols !! Z.to_nat 1 = at_index vis idx /\
     names !! Z.to_nat 1
     = name <$> at_index vis (GoInt.int32 (idx + GoInt.int32 1))).
Proof.
  apply (orderedColumns_saved (ColumnIndex.visibleColumns frozenFirst) 1
           [0; 0; 1]); reflexivity.
Defined.

(** ** A restore as a whole *)

Lemma layoutOnly_refl t : layoutOnly t t.
Proof. by destruct t. Qed.

Lemma layoutOnly_trans t1 t2 t3 :
  layoutOnly t1 t2 -> layoutOnly t2 t3 -> layoutOnly t1 t3.
Proof.
  unfold layoutOnly. destruct t1, t2, t3; cbn. intros [=] [=]. by subst.
Qed.

Lemma keeps_ret {A} (a : A) : keeps layoutOnly (ret a).
Proof. intros s. apply layoutOnly_refl. Qed.

Lemma keeps_get {A} (f : TableView -> A) : keeps layoutOnly (get f).
Proof. intros s. apply layoutOnly_refl. Qed.

Lemma keeps_perform {A} c (ans : History -> A) :
  keeps layoutOnly (perform c ans).
Proof. intros s. apply layoutOnly_refl. Qed.

Lemma keeps_bind {A B} (c : M A) (k : A -> M B) :
  keeps layoutOnly c -> (forall a, keeps layoutOnly (k a)) ->
  keeps layoutOnly (bind c k).
Proof.
  intros Hc Hk s. unfold bind. specialize (Hc s).
  destruct (c s) as [a s1]. eapply layoutOnly_trans; [exact Hc|]. apply Hk.
Qed.

Lemma keeps_orReturn c k :
  keeps layoutOnly c -> keeps layoutOnly k -> keeps layoutOnly (orReturn c k).
Proof.
  intros Hc Hk. apply keeps_bind; [done|].
  intros [e|]; [apply keeps_ret | done].
Qed.

Lemma keeps_if {A} (b : bool) (c1 c2 : M A) :
  keeps layoutOnly c1 -> keeps layoutOnly c2 ->
  keeps layoutOnly (if b then c1 else c2).
Proof. by destruct b. Qed.

Lemma keeps_set_columns v : keeps layoutOnly (modify (set_columns v)).
Proof. intros s. unfold layoutOnly. cbn. by destruct (tv s). Qed.

Lemma keeps_set_sortedColumnIndex v :
  keeps layoutOnly (modify (set_sortedColumnIndex v)).
Proof. intros s. unfold layoutOnly. cbn. by destruct (tv s). Qed.

Lemma keeps_set_sortOrder v : keeps layoutOnly (modify (set_sortOrder v)).
Proof. intros s. unfold layoutOnly. cbn. by destruct (tv s). Qed.

Section RestoreFacts.

Variable env : Env.

(** A step of the restore: its calls are among those of [isRestoreCall]
    and it leaves the widget as it was but for the layout. *)
Ltac restore_step :=
  repeat first
    [ apply emits_ret | apply emits_get | apply emits_modify
    | apply keeps_ret | apply keeps_get | apply keeps_perform
    | apply keeps_set_columns | apply keeps_set_sortedColumnIndex
    | apply keeps_set_sortOrder
    | apply emits_perform; exact I
    | apply emits_sendOrFail; exact I
    | apply emits_bind; [|intros ?] | apply keeps_bind; [|intros ?]
    | apply emits_orReturn | apply keeps_orReturn
    | apply emits_if | apply keeps_if ].

Lemma columnSet_restores p op :
  emits isRestoreCall (columnSet env p op) /\
  keeps layoutOnly (columnSet env p op).
Proof.
  unfold columnSet. split.
  - apply emits_bind; [apply emits_get|]. intros items.
    destruct (items !! p); restore_step.
  - apply keeps_bind; [apply keeps_get|]. intros items.
    destruct (items !! p); restore_step.
Qed.

Lemma restoreColumns_restores name2tvc displayOrder cols :
  emits isRestoreCall (restoreColumns env name2tvc displayOrder cols) /\
  keeps layoutOnly (restoreColumns env name2tvc displayOrder cols).
Proof.
  induction cols as [|c cols [IHe IHk]]; cbn [restoreColumns].
  - split; restore_step.
  - split.
    + apply emits_orReturn; [|done].
      destruct (name2tvc !! Name c); [|apply emits_ret].
      apply emits_orReturn; [apply columnSet_restores|].
      apply emits_orReturn; [apply columnSet_restores|].
      apply emits_bind; [apply emits_get|]. intros items. cbv zeta.
      apply emits_orReturn; apply columnSet_restores.
    + apply keeps_orReturn; [|done].
      destruct (name2tvc !! Name c); [|apply keeps_ret].
      apply keeps_orReturn; [apply columnSet_restores|].
      apply keeps_orReturn; [apply columnSet_restores|].
      apply keeps_bind; [apply keeps_get|]. intros items. cbv zeta.
      apply keeps_orReturn; apply columnSet_restores.
Qed.

Lemma pickSortable_restores srt cols i :
  emits isRestoreCall (pickSortable srt cols i) /\
  keeps layoutOnly (pickSortable srt cols i).
Proof.
  revert i. induction cols as [|c cols IH]; intros i; cbn [pickSortable].
  - split; restore_step.
  - destruct (IH (i + 1)) as [IHe IHk]. split; restore_step; done.
Qed.

Lemma restoreSort_restores tvs visibleCount :
  emits isRestoreCall (restoreSort tvs visibleCount) /\
  keeps layoutOnly (restoreSort tvs visibleCount).
Proof.
  unfold restoreSort, theSorter. split.
  - apply emits_bind; [destruct (findSortColumn _ _ _ _); restore_step|].
    intros _. apply emits_bind; [restore_step|]. intros [srt|]; restore_step.
    apply pickSortable_restores.
  - apply keeps_bind; [destruct (findSortColumn _ _ _ _); restore_step|].
    intros _. apply keeps_bind; [restore_step|]. intros [srt|]; restore_step.
    apply pickSortable_restores.
Qed.

Lemma restoreLayout_restores tvs :
  emits isRestoreCall (restoreLayout env tvs) /\
  keeps layoutOnly (restoreLayout env tvs).
Proof.
  unfold restoreLayout. split.
  - apply emits_bind; [apply emits_get|]. intros items0.
    apply emits_orReturn; [apply restoreColumns_restores|].
    apply emits_bind; [apply emits_get|]. intros items. cbv zeta.
    apply emits_orReturn; [apply emits_if; restore_step|].
    apply emits_orReturn; [apply emits_if; restore_step|].
    apply emits_bind; [apply restoreSort_restores | intros; apply emits_ret].
  - apply keeps_bind; [apply keeps_get|]. intros items0.
    apply keeps_orReturn; [apply restoreColumns_restores|].
    apply keeps_bind; [apply keeps_get|]. intros items. cbv zeta.
    apply keeps_orReturn; [apply keeps_if; restore_step|].
    apply keeps_orReturn; [apply keeps_if; restore_step|].
    apply keeps_bind; [apply restoreSort_restores | intros; apply keeps_ret].
Qed.


Lemma RestoreState_run s :
  RestoreState env s
  = match env.(base_ReadState) (hist s) with
    | inr msg => (Some (newError msg), mkSt (tv s) (cReadState :: hist s))
    | inl state =>
        if String.eqb state EmptyString
        then (None, mkSt (tv s) (cReadState :: hist s))
        else
          let s1 := mkSt (tv s) (cSetSuspended true :: cReadState :: hist s) in
          let (res, s2) :=
            match env.(json_Unmarshal) state with
            | inr msg => (Some (jsonError msg), s1)
            | inl tvs => restoreLayout env tvs s1
            end in
          (res, mkSt (tv s2) (cSetSuspended false :: hist s2))
    end.
Proof.
  unfold RestoreState, bind at 1, perform at 1.
  destruct (base_ReadState env (hist s)) as [state|msg]; [|done].
  destruct (String.eqb state EmptyString); [done|].
  unfold bind, perform. cbn [tv hist].
  destruct (json_Unmarshal env state) as [tvs|msg]; [|done].
  by destruct (restoreLayout env tvs _) as [res s2].
Qed.

(** X15: Once the settings hold a state, [RestoreState] suspends the widget,
    and it resumes it as its last call on every path, also when the state
    cannot be decoded or a column setter or a list view fails; between the
    two it calls nothing but the column setters, the column order of the
    panes and the model's sorter.  With no state, or none that can be read,
    reading the settings is its only call. *)
Theorem RestoreState_resumes s :
  let r := RestoreState env s in
  match env.(base_ReadState) (hist s) with
  | inr msg => r = (Some (newError msg), mkSt (tv s) (cReadState :: hist s))
  | inl state =>
      if String.eqb state EmptyString
      then r = (None, mkSt (tv s) (cReadState :: hist s))
      else
        exists h',
          hist r.2
          = cSetSuspended false :: h'
            ++ cSetSuspended true :: cReadState :: hist s /\
          Forall isRestoreCall h' /\
          forall msg, env.(json_Unmarshal) state = inr msg ->
                      r = (Some (jsonError msg),
                           mkSt (tv s) (hist r.2)) /\ h' = []
  end.
Proof.
  cbv zeta. rewrite RestoreState_run.
  destruct (base_ReadState env (hist s)) as [state|msg]; [|done].
  destruct (String.eqb state EmptyString); [done|]. cbv zeta.
  destruct (json_Unmarshal env state) as [tvs|msg].
  - destruct (restoreLayout_restores tvs) as [He _].
    specialize (He (mkSt (tv s) (cSetSuspended true :: cReadState :: hist s))).
    destruct (restoreLayout env tvs _) as [res s2].
    destruct He as (h' & Hh & HP). cbn [snd hist] in *.
    exists h'. rewrite Hh. split; [done|]. split; [done|]. by intros msg.
  - exists []. cbn. split; [done|]. split; [done|].
    intros msg' [= <-]. done.
Qed.

(** X16: [RestoreState] assigns to nothing of the widget but the index of the
    sorted column and the sort order, and the column setters it calls
    change their column: the model, the selection, the current index and
    every other field are those of before, on every path. *)
Theorem RestoreState_frame s :
  exists cols col order,
    tv (RestoreState env s).2
    = set_columns cols
        (set_sortedColumnIndex col (set_sortOrder order (tv s))).
Proof.
  assert (layoutOnly (tv s) (tv (RestoreState env s).2)) as H.
  { rewrite RestoreState_run.
    destruct (base_ReadState env (hist s)) as [state|msg];
      [|apply layoutOnly_refl].
    destruct (String.eqb state EmptyString); [apply layoutOnly_refl|].
    cbv zeta. destruct (json_Unmarshal env state) as [tvs|msg];
      [|apply layoutOnly_refl].
    destruct (restoreLayout_restores tvs) as [_ Hk].
    specialize (Hk (mkSt (tv s) (cSetSuspended true :: cReadState :: hist s))).
    by destruct (restoreLayout env tvs _) as [res s2]. }
  unfold layoutOnly in H. eauto.
Qed.

End RestoreFacts.

(** ** The sort order after a restore *)

Lemma findSortColumn_first cols i sortName n :
  match findSortColumn cols i sortName n with
  | Some r =>
      exists (k : nat) c,
        r = i + Z.of_nat k /\ r < n /\
        cols !! k = Some c /\ c.(Name) = sortName /\
        forall (k' : nat) c', (k' < k)%nat -> cols !! k' = Some c' ->
                              c'.(Name) <> sortName
  | None =>
      forall (k : nat) c, cols !! k = Some c -> c.(Name) = sortName ->
                          n <= i + Z.of_nat k
  end.
Proof.
  revert i. induction cols as [|c cols IH]; intros i; cbn [findSortColumn].
  - intros k c Hk. done.
  - destruct (String.eqb (Name c) sortName) eqn:Hname; cbn [andb].
    + apply String.eqb_eq in Hname.
      destruct (i <? n) eqn:Hi.
      * apply Z.ltb_lt in Hi. exists 0%nat, c.
        repeat split; [lia|done|done|]. intros k' c' Hk'. lia.
      * apply Z.ltb_ge in Hi. specialize (IH (i + 1)).
        destruct (findSortColumn cols (i + 1) sortName n) as [r|].
        -- destruct IH as (k & c0 & Hr & Hlt & _). lia.
        -- intros [|k] c0 Hk Hc0; [lia|]. specialize (IH k c0 Hk Hc0). lia.
    + apply String.eqb_neq in Hname. specialize (IH (i + 1)).
      destruct (findSortColumn cols (i + 1) sortName n) as [r|].
      * destruct IH as (k & c0 & Hr & Hlt & Hk & Hc0 & Hfirst).
        exists (S k), c0. repeat split; [lia|done|done|done|].
        intros [|k'] c' Hlt' Hk'.
        -- by injection Hk' as <-.
        -- apply (Hfirst k' c'); [lia|done].
      * intros [|k] c0 Hk Hc0.
        -- injection Hk as <-. done.
        -- specialize (IH k c0 Hk Hc0). lia.
Qed.

Lemma pickSortable_frame srt cols i s :
  exists col h',
    (pickSortable srt cols i s).2
    = mkSt (set_sortedColumnIndex col (tv s)) (h' ++ hist s) /\
    Forall (fun c => exists j, c = cColumnSortable j) h'.
Proof.
  revert i s. induction cols as [|c cols IH]; intros i s.
  - exists (sortedColumnIndex (tv s)), []. split; [|done].
    cbn. destruct s as [t h]. cbn. f_equal. by destruct t.
  - rewrite pickSortable_cons.
    destruct (IH (i + 1)
                (mkSt (if ColumnSortable srt (hist s) i
                       then set_sortedColumnIndex i (tv s) else tv s)
                      (cColumnSortable i :: hist s)))
      as (col & h' & -> & Hh).
    exists col, (h' ++ [cColumnSortable i]). cbn [tv hist]. split.
    + f_equal; [|by rewrite <- app_assoc].
      destruct (ColumnSortable srt (hist s) i); by destruct (tv s).
    + apply Forall_app. split; [done|]. constructor; [eauto|done].
Qed.

Lemma restoreSort_run tvs visibleCount s :
  let found := findSortColumn tvs.(tvs_Columns) 0 tvs.(SortColumnName)
                              visibleCount in
  let t1 := match found with
            | Some i => set_sortOrder tvs.(tvs_SortOrder)
                          (set_sortedColumnIndex i (tv s))
            | None => tv s
            end in
  (restoreSort tvs visibleCount s).2
  = match (theSorter s).1 with
    | Some srt =>
        let start := sortedColumnIndex t1 in
        let s2 := mkSt t1 (cColumnSortable start :: hist s) in
        let s3 := if srt.(ColumnSortable) (hist s) start then s2
                  else (pickSortable srt tvs.(tvs_Columns) 0 s2).2 in
        mkSt (tv s3)
             (cSort (sortedColumnIndex (tv s3)) tvs.(tvs_SortOrder) :: hist s3)
    | None => mkSt t1 (hist s)
    end.
Proof.
  cbv zeta. unfold restoreSort, theSorter.
  destruct s as [t h].
  destruct (findSortColumn _ _ _ _) as [i|];
    unfold bind, get, modify, ret, perform; cbn [tv hist fst snd model
      set_sortOrder set_sortedColumnIndex sortedColumnIndex].
  all: destruct (model t) as [mdl|]; [destruct (asSorter mdl) as [srt|]|].
  all: try done.
  all: cbn; destruct (ColumnSortable srt h _); cbn [negb]; [done|].
  all: by destruct (pickSortable srt _ 0 _) as [[] s3].
Qed.

Lemma restoreSort_found tvs visibleCount s :
  let found := findSortColumn tvs.(tvs_Columns) 0 tvs.(SortColumnName)
                              visibleCount in
  let start := default (sortedColumnIndex (tv s)) found in
  let r := (restoreSort tvs visibleCount s).2 in
  sortOrder (tv r)
  = match found with
    | Some _ => tvs.(tvs_SortOrder)
    | None => sortOrder (tv s)
    end /\
  match (theSorter s).1 with
  | Some srt =>
      head (hist r)
      = Some (cSort (sortedColumnIndex (tv r)) tvs.(tvs_SortOrder)) /\
      (srt.(ColumnSortable) (hist s) start = true ->
       sortedColumnIndex (tv r) = start)
  | None => hist r = hist s /\ sortedColumnIndex (tv r) = start
  end.
Proof.
  cbv zeta. rewrite restoreSort_run. cbv zeta.
  set (found := findSortColumn _ _ _ _).
  set (t1 := match found with Some i => _ | None => _ end).
  assert (sortOrder t1 = match found with
                         | Some _ => tvs_SortOrder tvs
                         | None => sortOrder (tv s)
                         end) as Hord by (unfold t1; by destruct found).
  assert (sortedColumnIndex t1 = default (sortedColumnIndex (tv s)) found)
    as Hcol by (unfold t1; by destruct found).
  destruct (theSorter s).1 as [srt|]; [|done].
  rewrite <- Hcol.
  destruct (ColumnSortable srt (hist s) (sortedColumnIndex t1)); [done|].
  destruct (pickSortable_frame srt (tvs_Columns tvs) 0
              (mkSt t1 (cColumnSortable (sortedColumnIndex t1) :: hist s)))
    as (col & h' & -> & _).
  cbn [tv hist head]. split; [|done]. rewrite <- Hord. by destruct t1.
Qed.

(** X17: The end of [RestoreState].  The persisted sort column is looked for by
    name among the persisted columns, and only a position below the number
    of visible columns counts.  If the first column of that name is there,
    its position becomes the sorted column and the widget takes the
    persisted sort order; if not, the widget keeps its sorted column and
    its sort order.  A model that is a [Sorter] is then sorted, as the last
    call, by the column the widget ends with and in the persisted order in
    either case, and that column is the one just chosen if the model sorts
    by it; with any other model nothing is called. *)
Theorem restoreSort_order tvs visibleCount s :
  let r := (restoreSort tvs visibleCount s).2 in
  let cols := tvs.(tvs_Columns) in
  exists start,
    ((exists (k : nat) c,
         start = Z.of_nat k /\ start < visibleCount /\
         cols !! k = Some c /\ c.(Name) = tvs.(SortColumnName) /\
         (forall (k' : nat) c', (k' < k)%nat -> cols !! k' = Some c' ->
                                c'.(Name) <> tvs.(SortColumnName)) /\
         sortOrder (tv r) = tvs.(tvs_SortOrder))
     \/
     (start = sortedColumnIndex (tv s) /\
      sortOrder (tv r) = sortOrder (tv s) /\
      forall (k : nat) c, cols !! k = Some c ->
                          c.(Name) = tvs.(SortColumnName) ->
                          visibleCount <= Z.of_nat k)) /\
    match (theSorter s).1 with
    | Some srt =>
        head (hist r)
        = Some (cSort (sortedColumnIndex (tv r)) tvs.(tvs_SortOrder)) /\
        (srt.(ColumnSortable) (hist s) start = true ->
         sortedColumnIndex (tv r) = start)
    | None => hist r = hist s /\ sortedColumnIndex (tv r) = start
    end.
Proof.
  cbv zeta.
  destruct (restoreSort_found tvs visibleCount s) as [Hord Hrest].
  pose proof (findSortColumn_first (tvs_Columns tvs) 0 (SortColumnName tvs)
                visibleCount) as Hfound.
  destruct (findSortColumn _ _ _ _) as [i|].
  - exists i. split; [|exact Hrest]. left.
    destruct Hfound as (k & c & Hi & Hlt & Hk & Hc & Hfirst).
    exists k, c. repeat split; try done; lia.
  - exists (sortedColumnIndex (tv s)). split; [|exact Hrest]. right.
    repeat split; [done|]. intros k c Hk Hc.
    specialize (Hfound k c Hk Hc). lia.
Qed.

(** ** The sort icon *)

Section SortIcon.
Import GoInt GoIntFacts ColumnIndex ColumnIndexFacts.

Lemma visibleColumns_visible items :
  Forall (fun c => c.(visible) = true) (visibleColumns items).
Proof.
  apply Forall_forall. intros c Hc.
  by apply list_elem_of_filter in Hc as [Hv _].
Qed.

Lemma visibleRank_all cols :
  Forall (fun c => c.(visible) = true) cols ->
  visibleRank cols = Z.of_nat (length cols).
Proof.
  induction 1 as [|c cols Hc _ IH]; [done|].
  rewrite visibleRank_cons, Hc, IH. cbn [length]. lia.
Qed.

Lemma paneRank_app f l1 l2 :
  paneRank f (l1 ++ l2) = paneRank f l1 + paneRank f l2.
Proof. unfold paneRank. rewrite filter_app, length_app. lia. Qed.

Lemma paneRank_visibleColumns f items :
  paneRank f (visibleColumns items) = paneRank f items.
Proof.
  unfold paneRank, visibleColumns. rewrite list_filter_filter.
  do 2 f_equal. apply list_filter_iff. naive_solver.
Qed.

Lemma headerItem_frozen fc k c :
  c.(frozen) = true -> 0 <= k <= max_int32 -> headerItem fc k c = k.
Proof.
  intros Hc Hk. unfold headerItem, add, uintptr. rewrite Hc.
  rewrite int_small by (unfold is_int, min_int, max_int, max_int32 in *; lia).
  unfold max_int32 in Hk. apply Z.mod_small. lia.
Qed.

Lemma headerItem_normal fc k c :
  c.(frozen) = false -> 0 <= fc <= max_int32 -> 0 <= k <= max_int32 ->
  headerItem fc k c = (k - fc) mod 2 ^ 64.
Proof.
  intros Hc Hfc Hk. unfold headerItem, add, uintptr. rewrite Hc.
  unfold max_int32 in *.
  rewrite !int_small by (unfold is_int, min_int, max_int;
    rewrite ?int_small by (unfold is_int, min_int, max_int; lia); lia).
  f_equal. lia.
Qed.

(** X18: [setSortIcon] reads and writes, for the column at position [i] of
    [visibleColumns], the header item [i] of the frozen pane or the header
    item [i - frozenCount] of the normal pane.  That is the column's own
    header item, the number of visible columns of its pane before it, for
    every visible column exactly when no visible column of the normal pane
    comes before one of the frozen pane. *)
Theorem setSortIcon_header_items items :
  Z.of_nat (length items) <= max_int32 ->
  let vis := visibleColumns items in
  let fc := visibleFrozenColumnCount items in
  (forall (k : nat) ck, vis !! k = Some ck ->
      headerItem fc (Z.of_nat k) ck = paneRank ck.(frozen) (take k vis))
  <-> frozenLead vis.
Proof.
  intros Hlen vis fc.
  pose proof (visibleColumns_visible items) as Hvis. fold vis in Hvis.
  assert (Z.of_nat (length vis) <= Z.of_nat (length items)) as Hlv.
  { pose proof (visibleRank_range items). unfold visibleRank in *.
    fold vis in H. lia. }
  assert (fc = paneRank true vis) as Hfc.
  { unfold fc, vis. by rewrite paneRank_visibleColumns,
      ColumnMapping.visibleFrozenColumnCount_rank. }
  assert (forall k, (k <= length vis)%nat ->
            visibleRank (take k vis) = Z.of_nat k) as Htake.
  { intros k Hk. rewrite visibleRank_all by (apply Forall_take; exact Hvis).
    rewrite length_take. lia. }
  split.
  - intros Hslots j k cj ck Hjk Hj Hk Hf.
    pose proof (lookup_lt_Some _ _ _ Hk) as Hklt.
    specialize (Hslots k ck Hk). rewrite Hf in Hslots.
    rewrite headerItem_frozen in Hslots by (done || lia).
    assert (Forall (fun c => visible c = true -> frozen c = true) (take k vis))
      as Hall.
    { apply paneRank_same_pane_inv. rewrite Htake by lia. lia. }
    apply (Forall_lookup_1 _ _ j cj Hall).
    + apply lookup_take_Some. by split.
    + apply (Forall_lookup_1 _ _ j cj Hvis Hj).
  - intros Hlead k ck Hk.
    pose proof (lookup_lt_Some _ _ _ Hk) as Hklt.
    destruct (frozen ck) eqn:Hf.
    + rewrite headerItem_frozen by (done || lia).
      rewrite (paneRank_same_pane true); [by rewrite Htake by lia|].
      apply Forall_lookup. intros j cj Hj _.
      apply lookup_take_Some in Hj as [Hj Hlt]. eauto.
    + assert (paneRank true (drop k vis) = 0) as Hdrop.
      { pose proof (ColumnMapping.visibleRank_split (drop k vis)) as Hs.
        rewrite (paneRank_same_pane false) in Hs; [lia|].
        apply Forall_lookup. intros j cj Hj _.
        rewrite lookup_drop in Hj.
        destruct (frozen cj) eqn:Hcj; [|done].
        destruct j as [|j].
        - rewrite Nat.add_0_r in Hj. congruence.
        - rewrite (Hlead k (k + S j)%nat ck cj) in Hf;
            [done|lia|done|done|done]. }
      assert (paneRank true (take k vis) = fc) as Hpre.
      { rewrite Hfc. rewrite <- (take_drop k vis) at 2.
        rewrite paneRank_app. lia. }
      pose proof (ColumnMapping.visibleRank_split (take k vis)) as Hs.
      rewrite Htake in Hs by lia.
      pose proof (paneRank_range false (take k vis)).
      pose proof (paneRank_range true (take k vis)).
      rewrite headerItem_normal by (done || lia).
      rewrite Z.mod_small; [lia|]. unfold max_int32 in *. lia.
Qed.

(** X19: The position of [visibleColumns] that [setSortIcon] compares with
    [toLVColIdx(index)] holds the column [index]. *)
Theorem setSortIcon_marks_column items (p : nat) c :
  Z.of_nat (length items) <= max_int32 ->
  items !! p = Some c -> c.(visible) = true ->
  0 <= toLVColIdx items (Z.of_nat p)
  < Z.of_nat (length (visibleColumns items)) /\
  visibleColumns items !! Z.to_nat (toLVColIdx items (Z.of_nat p)) = Some c.
Proof.
  intros Hlen Hp Hv. rewrite (toLVColIdx_visible items p c) by done.
  unfold visibleRank. rewrite Nat2Z.id.
  assert (visibleColumns items
          = visibleColumns (take p items)
            ++ c :: visibleColumns (drop (S p) items)) as Hsplit.
  { rewrite <- (take_drop_middle items p c Hp) at 1. unfold visibleColumns.
    by rewrite filter_app, filter_cons, decide_True. }
  rewrite Hsplit, length_app. cbn [length]. split; [lia|].
  by rewrite list_lookup_middle.
Qed.

End SortIcon.

Lemma setSortIcon_header_items_witness :
  (forall (k : nat) ck, ColumnIndex.visibleColumns frozenFirst !! k = Some ck ->
      headerItem (ColumnIndex.visibleFrozenColumnCount frozenFirst)
                 (Z.of_nat k) ck
      = ColumnIndex.paneRank ck.(frozen)
          (take k (ColumnIndex.visibleColumns frozenFirst)))
  <-> frozenLead (ColumnIndex.visibleColumns frozenFirst).
Proof.
  apply (setSortIcon_header_items frozenFirst). by vm_compute.
Defined.

Lemma setSortIcon_marks_column_witness :
  0 <= ColumnIndex.toLVColIdx frozenFirst (Z.of_nat 2)
  < Z.of_nat (length (ColumnIndex.visibleColumns frozenFirst)) /\
  ColumnIndex.visibleColumns frozenFirst
    !! Z.to_nat (ColumnIndex.toLVColIdx frozenFirst (Z.of_nat 2))
  = Some (plainColumn "b").
Proof.
  apply (setSortIcon_marks_column frozenFirst 2 (plainColumn "b")).
  - by vm_compute.
  - reflexivity.
  - reflexivity.
Defined.
